(** * waas-loadtest: the load generator of the guestbook service

    A shallow embedding of [loadtest/loadtest.go]: the retrying requesters
    [exponentialBackoffGET] and [exponentialBackoffPOST], the worker
    [makeRequests], and the aggregation and percentile computation of
    [main].

    Conventions.
    - Go's [int], [int64] and [time.Duration] are 64-bit signed integers;
      they are values of [Z] and every addition and multiplication of the
      source is written with its two's-complement wrap-around ([wrap64]).
    - [[]byte] and [string] are [string] (a sequence of 8-bit characters).
    - The network, the random source, the wall clock and [json.Marshal]
      are outside the program.  A goroutine sees them through an [Env]:
      the answer of its n-th HTTP call, its n-th random draw, its n-th
      clock reading.  The code is a state transformer over a [World] that
      counts these events and logs every [time.Sleep].
    - A run-time panic of [main] is the [Panic] outcome.
    - Console output of the error branches ([fmt.Println]) and the deferred
      [resp.Body.Close()] calls are not modelled; the final report of
      [main] is the record [RunSummary].
    - The worker goroutines share no program state; the interleaving of
      their runs shows in the order in which [main] receives their
      records, which is a parameter of the run ([arrival]). *)

From Stdlib Require Import ZArith Lia Ascii String List.
From stdpp Require Import base numbers list sorting gmap strings.

Local Open Scope Z_scope.

(** ** Machine integers *)

Definition max_int : Z := 2 ^ 63 - 1.
Definition min_int : Z := - 2 ^ 63.

Definition wrap64 (z : Z) : Z := (z + 2 ^ 63) mod 2 ^ 64 - 2 ^ 63.

Definition int_add (a b : Z) : Z := wrap64 (a + b).
Definition int_mul (a b : Z) : Z := wrap64 (a * b).
(** Go's [/] truncates toward zero; the divisor is non-zero where used. *)
Definition int_quot (a b : Z) : Z := wrap64 (Z.quot a b).

Definition in_int (z : Z) : Prop := min_int <= z <= max_int.

(** ** time.Duration *)

Definition Duration : Type := Z.
Definition Nanosecond : Duration := 1.
Definition Microsecond : Duration := 1000 * Nanosecond.
Definition Millisecond : Duration := 1000 * Microsecond.
Definition Second : Duration := 1000 * Millisecond.

(** ** Data of the program *)

Record Stats : Type := mkStats {
  SuccessfulGET : Z;
  SuccessfulPOST : Z;
  TotalBytesSent : Z;
  TotalBytesRecv : Z;
  Errors : Z;
  Latencies : list Duration
}.

Record Comment : Type := mkComment {
  Username : string;
  Message : string;
  Time : Z
}.

(** The zero value of [Stats] ([var s Stats]). *)
Definition zeroStats : Stats := mkStats 0 0 0 0 0 [].

(** ** The world outside the program *)

Inductive error : Type := Errorf (msg : string).

(** [*http.Response], as far as the program looks at it.  The program
    never reads [StatusCode]; it is kept to state what the program does
    with it.  [net/http] documents that a response returned with a nil
    error has a non-nil body. *)
Record Response : Type := mkResponse {
  StatusCode : Z;
  Body : string
}.

Inductive Method : Type := GET | POST.

Record Request : Type := mkRequest {
  method : Method;
  url : string;
  contentType : string;
  payload : string
}.

Record Env : Type := mkEnv {
  (** the outcome of the n-th HTTP call: a response, or a transport error *)
  net : nat -> Request -> Response + error;
  (** the n-th value of the random source, before reduction by [rand.Intn] *)
  rnd : nat -> Z;
  (** the n-th reading of the clock, in nanoseconds *)
  now : nat -> Z;
  (** [json.Marshal] on a [Comment] *)
  marshal : Comment -> string + error
}.

Record World : Type := mkWorld {
  calls : nat;           (* HTTP calls issued so far *)
  draws : nat;           (* random draws so far *)
  ticks : nat;           (* clock readings so far *)
  slept : list Duration  (* arguments of time.Sleep, oldest first *)
}.

Definition initWorld : World := mkWorld 0 0 0 [].

(** ** A state monad over [World] *)

Definition M (A : Type) : Type := World -> A * World.

Definition ret {A : Type} (a : A) : M A := fun w => (a, w).

Definition bind {A B : Type} (m : M A) (k : A -> M B) : M B :=
  fun w => let (a, w') := m w in k a w'.

Notation "'do' x <- m ;; k" := (bind m (fun x => k))
  (at level 10, x name, m at level 99, k at level 200).
Notation "'do_' m ;; k" := (bind m (fun _ => k))
  (at level 10, m at level 99, k at level 200).

Inductive outcome (A : Type) : Type :=
| Done (a : A)
| Panic (msg : string).
Arguments Done {A} a.
Arguments Panic {A} msg.

(** ** The requesters and the worker *)

Section Goroutine.

Variable env : Env.

Definition time_Now : M Z :=
  fun w => (now env (ticks w),
            mkWorld (calls w) (draws w) (S (ticks w)) (slept w)).

(** [time.Since(start)] is [time.Now().Sub(start)]; the readings are
    nanoseconds of one clock, and the saturation of [Sub] beyond 292
    years is not modelled. *)
Definition time_Since (start : Z) : M Duration :=
  do t <- time_Now ;; ret (t - start).

Definition time_Sleep (d : Duration) : M unit :=
  fun w => (tt, mkWorld (calls w) (draws w) (ticks w) (slept w ++ [d])).

(** [rand.Intn(n)] for [n > 0]: a value in [[0, n)]. *)
Definition rand_Intn (n : Z) : M Z :=
  fun w => (rnd env (draws w) mod n,
            mkWorld (calls w) (S (draws w)) (ticks w) (slept w)).

Definition http_do (r : Request) : M (Response + error) :=
  fun w => (net env (calls w) r,
            mkWorld (S (calls w)) (draws w) (ticks w) (slept w)).

Definition http_Get (u : string) : M (Response + error) :=
  http_do (mkRequest GET u "" "").

Definition http_Post (u ct body : string) : M (Response + error) :=
  http_do (mkRequest POST u ct body).

(** [io.Copy(ioutil.Discard, resp.Body)]: the number of bytes drained.
    The guard [resp != nil && resp.Body != nil] holds for every response
    that comes with a nil error. *)
Definition io_Copy_Discard (body : string) : Z :=
  Z.of_nat (String.length body).

(** The five results of a requester: the response pointer, the latency,
    the bytes sent, the bytes received and the error. *)
Record BackoffResult : Type := mkResult {
  resp : option Response;
  latency : Duration;
  bytesSent : Z;
  bytesRecv : Z;
  err : option error
}.

Definition errBackoffExceeded : error :=
  Errorf "exponential backoff exceeded".

(** The doubling and the ceiling of the delay (lines 168-171, 198-201). *)
Definition nextBackoff (backoff : Duration) : Duration :=
  let backoff := int_mul backoff 2 in
  if 5 * Second <? backoff then 5 * Second else backoff.

(** The loop [for i := 0; i < 10; i++] of [exponentialBackoffGET], with
    [n] iterations left. *)
Fixpoint backoffLoopGET (u : string) (n : nat) (backoff : Duration)
  : M BackoffResult :=
  match n with
  | O => ret (mkResult None 0 0 0 (Some errBackoffExceeded))
  | S n' =>
    do start <- time_Now ;;
    do r <- http_Get u ;;
    do latency <- time_Since start ;;
    match r with
    | inl rsp =>
      let requestSize := 0 in
      let responseSize := io_Copy_Discard (Body rsp) in
      ret (mkResult (Some rsp) latency requestSize responseSize None)
    | inr _ =>
      do_ time_Sleep backoff ;;
      backoffLoopGET u n' (nextBackoff backoff)
    end
  end.

Definition exponentialBackoffGET (u : string) : M BackoffResult :=
  backoffLoopGET u 10 (20 * Millisecond).

Fixpoint backoffLoopPOST (u : string) (comment : Comment) (n : nat)
  (backoff : Duration) : M BackoffResult :=
  match n with
  | O => ret (mkResult None 0 0 0 (Some errBackoffExceeded))
  | S n' =>
    do start <- time_Now ;;
    match marshal env comment with
    | inr e => ret (mkResult None 0 0 0 (Some e))
    | inl commentJSON =>
      do r <- http_Post u "application/json" commentJSON ;;
      do latency <- time_Since start ;;
      match r with
      | inl rsp =>
        let requestSize := Z.of_nat (String.length commentJSON) in
        let responseSize := io_Copy_Discard (Body rsp) in
        ret (mkResult (Some rsp) latency requestSize responseSize None)
      | inr _ =>
        do_ time_Sleep backoff ;;
        backoffLoopPOST u comment n' (nextBackoff backoff)
      end
    end
  end.

Definition exponentialBackoffPOST (u : string) (comment : Comment)
  : M BackoffResult :=
  backoffLoopPOST u comment 10 (20 * Millisecond).

Definition charset : string :=
  "abcdefghijklmnopqrstuvwxyzABCDEFGHIJKLMNOPQRSTUVWXYZ0123456789".

(** [charset[i]] for an index that [rand.Intn(len(charset))] returned. *)
Definition charAt (i : Z) : ascii :=
  match String.get (Z.to_nat i) charset with
  | Some c => c
  | None => Ascii.zero
  end.

Fixpoint randomString (length : nat) : M string :=
  match length with
  | O => ret EmptyString
  | S n =>
    do i <- rand_Intn (Z.of_nat (String.length charset)) ;;
    do rest <- randomString n ;;
    ret (String (charAt i) rest)
  end.

Variable baseURL : string.

(** One pass through the body of the loop of [makeRequests]. *)
Definition iteration (s : Stats) : M Stats :=
  do queryKey <- randomString 10 ;;
  do queryValue <- randomString 10 ;;
  do coin <- rand_Intn 2 ;;
  if coin =? 0 then
    do r <- exponentialBackoffGET
           (baseURL +:+ "/comments?" +:+ queryKey +:+ "=" +:+ queryValue) ;;
    match err r with
    | Some _ =>
      ret (mkStats (SuccessfulGET s) (SuccessfulPOST s) (TotalBytesSent s)
             (TotalBytesRecv s) (int_add (Errors s) 1) (Latencies s))
    | None =>
      ret (mkStats (int_add (SuccessfulGET s) 1) (SuccessfulPOST s)
             (int_add (TotalBytesSent s) (bytesSent r))
             (int_add (TotalBytesRecv s) (bytesRecv r))
             (Errors s) (Latencies s ++ [latency r]))
    end
  else
    do comment <- randomString 30 ;;
    do t <- time_Now ;;
    let c := mkComment "test" comment t in
    do r <- exponentialBackoffPOST
           (baseURL +:+ "/comment?" +:+ queryKey +:+ "=" +:+ queryValue) c ;;
    match err r with
    | Some _ =>
      ret (mkStats (SuccessfulGET s) (SuccessfulPOST s) (TotalBytesSent s)
             (TotalBytesRecv s) (int_add (Errors s) 1) (Latencies s))
    | None =>
      ret (mkStats (SuccessfulGET s) (int_add (SuccessfulPOST s) 1)
             (int_add (TotalBytesSent s) (bytesSent r))
             (int_add (TotalBytesRecv s) (bytesRecv r))
             (Errors s) (Latencies s ++ [latency r]))
    end.

(** The loop [for i := 0; i < requestsPerThread; i++], [n] iterations
    left. *)
Fixpoint requestLoop (n : nat) (s : Stats) : M Stats :=
  match n with
  | O => ret s
  | S n' => do s' <- iteration s ;; requestLoop n' s'
  end.

(** [makeRequests]: the value returned is the one record the worker
    sends on [statsChan]. *)
Definition makeRequests (requestsPerThread : Z) : M Stats :=
  requestLoop (Z.to_nat requestsPerThread) zeroStats.

End Goroutine.

(** ** The driver *)

(** The three package-level variables set from the command line. *)
Record Config : Type := mkConfig {
  baseURL : string;
  numRequests : Z;
  threads : Z
}.

(** What one run of [main] meets: the environment each worker goroutine
    sees, the order in which the workers' records are received from
    [statsChan], and the clock readings of [main] itself. *)
Record Schedule : Type := mkSchedule {
  envOf : nat -> Env;
  arrival : list nat;
  mainClock : nat -> Z
}.

(** Every spawned worker is received exactly once. *)
Definition valid_schedule (cfg : Config) (sch : Schedule) : Prop :=
  arrival sch ≡ₚ seq 0 (Z.to_nat (threads cfg)).

(** The record worker [i] sends on [statsChan]. *)
Definition workerStats (cfg : Config) (sch : Schedule)
  (requestsPerThread : Z) (i : nat) : Stats :=
  fst (makeRequests (envOf sch i) (baseURL cfg) requestsPerThread initWorld).

(** The body of the receiving loop (lines 64-70). *)
Definition mergeStats (acc s : Stats) : Stats :=
  mkStats (int_add (SuccessfulGET acc) (SuccessfulGET s))
          (int_add (SuccessfulPOST acc) (SuccessfulPOST s))
          (int_add (TotalBytesSent acc) (TotalBytesSent s))
          (int_add (TotalBytesRecv acc) (TotalBytesRecv s))
          (int_add (Errors acc) (Errors s))
          (Latencies acc ++ Latencies s).

Definition aggregate (received : list Stats) : Stats :=
  foldl mergeStats zeroStats received.

(** [sort.Slice] with the order [slice[i] < slice[j]]: the ascending
    rearrangement of the slice. *)
Definition sortDurationSlice (slice : list Duration) : list Duration :=
  merge_sort Z.le slice.

(** [slice[idx]] with Go's bounds check. *)
Definition index (slice : list Duration) (idx : Z) : outcome Duration :=
  if idx <? 0 then Panic "index out of range"
  else match slice !! Z.to_nat idx with
       | Some v => Done v
       | None => Panic "index out of range"
       end.

Definition percentiles : list Z := [50; 90; 95; 99].

Definition percentileIndex (len p : Z) : Z :=
  int_quot (int_mul len p) 100.

(** The loop [for _, p := range percentiles] (lines 84-87). *)
Fixpoint percentileLoop (latenciesSorted : list Duration) (ps : list Z)
  (percentileLatencies : gmap Z Duration) : outcome (gmap Z Duration) :=
  match ps with
  | [] => Done percentileLatencies
  | p :: ps' =>
    let idx := percentileIndex (Z.of_nat (length latenciesSorted)) p in
    match index latenciesSorted idx with
    | Done v => percentileLoop latenciesSorted ps' (<[p := v]> percentileLatencies)
    | Panic msg => Panic msg
    end
  end.

(** Lines 76-87: copy, sort, look the four percentiles up. *)
Definition percentileTable (latencies : list Duration)
  : outcome (gmap Z Duration) :=
  percentileLoop (sortDurationSlice latencies) percentiles ∅.

Section Driver.

(** [float64] and the three operations [main] uses on it are kept
    abstract. *)
Variable float64 : Type.
Variable float64_of_int : Z -> float64.
Variable Duration_Seconds : Duration -> float64.
Variable float64_div : float64 -> float64 -> float64.

(** The values [main] prints. *)
Record RunSummary : Type := mkSummary {
  elapsedTime : Duration;
  totalBytesSent : Z;
  totalBytesRecv : Z;
  successfulGET : Z;
  successfulPOST : Z;
  errors : Z;
  percentileLatencies : gmap Z Duration;
  requestsPerSecond : float64
}.

(** Reading a Go map at a key: the zero value when the key is absent. *)
Definition printedPercentile (s : RunSummary) (p : Z) : Duration :=
  default 0 (percentileLatencies s !! p).

Definition main (cfg : Config) (sch : Schedule) : outcome RunSummary :=
  let startTime := mainClock sch 0%nat in
  if threads cfg <? 0 then Panic "makechan: size out of range"
  else if threads cfg =? 0 then Panic "integer divide by zero"
  else
    let requestsPerThread := int_quot (numRequests cfg) (threads cfg) in
    let received :=
      map (workerStats cfg sch requestsPerThread) (arrival sch) in
    let merged := aggregate received in
    let elapsedTime := mainClock sch 1%nat - startTime in
    match percentileTable (Latencies merged) with
    | Panic msg => Panic msg
    | Done table =>
      let requestsPerSecond :=
        float64_div (float64_of_int (numRequests cfg))
                    (Duration_Seconds elapsedTime) in
      Done (mkSummary elapsedTime
              (TotalBytesSent merged) (TotalBytesRecv merged)
              (SuccessfulGET merged) (SuccessfulPOST merged)
              (Errors merged) table requestsPerSecond)
    end.

End Driver.

Arguments mkSummary {float64}.
Arguments elapsedTime {float64}.
Arguments totalBytesSent {float64}.
Arguments totalBytesRecv {float64}.
Arguments successfulGET {float64}.
Arguments successfulPOST {float64}.
Arguments errors {float64}.
Arguments percentileLatencies {float64}.
Arguments requestsPerSecond {float64}.
Arguments printedPercentile {float64}.
Arguments main {float64}.

(** ** Vocabulary of the statements *)

(** The requests the two requesters put on the wire. *)
Definition getRequest (u : string) : Request := mkRequest GET u "" "".
Definition postRequest (u body : string) : Request :=
  mkRequest POST u "application/json" body.

(** The delays slept by [n] consecutive failed attempts, the first of
    them after a failure with delay [b] pending. *)
Fixpoint delays (n : nat) (b : Duration) : list Duration :=
  match n with
  | O => []
  | S n' => b :: delays n' (nextBackoff b)
  end.

(** The world after [a] further HTTP attempts of which [f] failed. *)
Definition after (w : World) (a f : nat) (b : Duration) : World :=
  mkWorld (calls w + a) (draws w) (ticks w + 2 * a)
          (slept w ++ delays f b).

(** The clock reading taken right after the [k]-th attempt of a call
    entered in world [w], minus the reading taken right before it. *)
Definition attemptLatency (env : Env) (w : World) (k : nat) : Duration :=
  now env (ticks w + 2 * k - 1) - now env (ticks w + 2 * k - 2).

(** What the three branches of an iteration do to the worker's record:
    lines 119, 122-127 and 140-145. *)
Definition recordError (s : Stats) : Stats :=
  mkStats (SuccessfulGET s) (SuccessfulPOST s) (TotalBytesSent s)
          (TotalBytesRecv s) (int_add (Errors s) 1) (Latencies s).

Definition recordGET (s : Stats) (sent recv : Z) (lat : Duration) : Stats :=
  mkStats (int_add (SuccessfulGET s) 1) (SuccessfulPOST s)
          (int_add (TotalBytesSent s) sent) (int_add (TotalBytesRecv s) recv)
          (Errors s) (Latencies s ++ [lat]).

Definition recordPOST (s : Stats) (sent recv : Z) (lat : Duration) : Stats :=
  mkStats (SuccessfulGET s) (int_add (SuccessfulPOST s) 1)
          (int_add (TotalBytesSent s) sent) (int_add (TotalBytesRecv s) recv)
          (Errors s) (Latencies s ++ [lat]).

(** One iteration, seen from the record: an error, or a success whose
    byte counts satisfy [P]. *)
Inductive Step (P : Z -> Prop) (s s' : Stats) : Prop :=
| step_error : s' = recordError s -> Step P s s'
| step_get sent recv lat :
    P sent -> P recv -> s' = recordGET s sent recv lat -> Step P s s'
| step_post sent recv lat :
    P sent -> P recv -> s' = recordPOST s sent recv lat -> Step P s s'.

(** Every response body and every serialized comment the goroutine meets
    has a size that satisfies [P]. *)
Definition message_sizes (P : Z -> Prop) (env : Env) : Prop :=
  (forall n r rsp, net env n r = inl rsp ->
     P (Z.of_nat (String.length (Body rsp)))) /\
  (forall c js, marshal env c = inl js -> P (Z.of_nat (String.length js))).

(** The iterations a record accounts for. *)
Definition iterationsCounted (s : Stats) : Z :=
  SuccessfulGET s + SuccessfulPOST s + Errors s.

(** The counters of a record that accounts for [i] iterations. *)
Definition CountInv (i : Z) (s : Stats) : Prop :=
  0 <= SuccessfulGET s /\ 0 <= SuccessfulPOST s /\ 0 <= Errors s /\
  iterationsCounted s = i /\
  Z.of_nat (length (Latencies s)) = SuccessfulGET s + SuccessfulPOST s.

(** The byte totals of a record that accounts for [i] iterations, when no
    message is larger than [B] bytes. *)
Definition BytesInv (B i : Z) (s : Stats) : Prop :=
  0 <= TotalBytesSent s <= B * i /\ 0 <= TotalBytesRecv s <= B * i.

(** The invariant of a published record. *)
Definition StatsInv (s : Stats) : Prop :=
  Z.of_nat (length (Latencies s)) = SuccessfulGET s + SuccessfulPOST s /\
  0 <= SuccessfulGET s /\ 0 <= SuccessfulPOST s /\ 0 <= Errors s /\
  0 <= TotalBytesSent s /\ 0 <= TotalBytesRecv s.

(** The exact (unbounded) sum of a field over a list of records. *)
Definition sumOf (f : Stats -> Z) (l : list Stats) : Z :=
  foldr (fun s a => f s + a) 0 l.

(** The merged record [main] holds after its receiving loop. *)
Definition merged (cfg : Config) (sch : Schedule) : Stats :=
  aggregate
    (map (workerStats cfg sch (int_quot (numRequests cfg) (threads cfg)))
         (arrival sch)).

(** No response body and no serialized comment is larger than [B] bytes. *)
Definition messages_within (B : Z) (env : Env) : Prop :=
  message_sizes (fun x => 0 <= x <= B) env.

(** A field of [Stats] that [mergeStats] adds up. *)
Definition additive (f : Stats -> Z) : Prop :=
  forall acc s, f (mergeStats acc s) = int_add (f acc) (f s).

(** A target that answers every attempt with a transport error. *)
Definition always_fails (env : Env) : Prop :=
  forall n r, exists e, net env n r = inr e.

(** HTTP success statuses, 200 to 299. *)
Definition success_status (code : Z) : bool :=
  (200 <=? code) && (code <? 300).

(** ** Sample environments *)

(** [json.Marshal] stood in for by a constant two-byte encoding. *)
Definition marshalMessage (c : Comment) : string + error := inl "{}".

(** A target that refuses every connection; the clock advances by one
    microsecond per reading. *)
Definition envDown : Env :=
  mkEnv (fun _ _ => inr (Errorf "connection refused"))
        (fun n => Z.of_nat n) (fun n => Z.of_nat n * 1000) marshalMessage.

(** A target that answers every request with status 500 and a four-byte
    body; every random draw is 0, so the worker always chooses GET. *)
Definition env500 : Env :=
  mkEnv (fun _ _ => inl (mkResponse 500 "oops"))
        (fun _ => 0) (fun n => Z.of_nat n * 1000) marshalMessage.

(** A target that refuses the first two connections and then answers 200;
    the n-th clock reading is n squared, so no two attempts take the same
    time. *)
Definition envFlaky : Env :=
  mkEnv (fun n _ => if (n <? 2)%nat then inr (Errorf "connection refused")
                    else inl (mkResponse 200 "[]"))
        (fun _ => 0) (fun n => Z.of_nat n * Z.of_nat n) marshalMessage.

(** A healthy target: status 200 on GET and 201 on POST; the draws
    alternate, so both methods are chosen. *)
Definition envHealthy : Env :=
  mkEnv (fun _ r => match method r with
                    | GET => inl (mkResponse 200 "[]")
                    | POST => inl (mkResponse 201 "")
                    end)
        (fun n => Z.of_nat n) (fun n => Z.of_nat n * 1000) marshalMessage.

Definition sampleComment : Comment := mkComment "test" "hello" 0.

(** Two workers, the first against the healthy target and the second
    against the flaky one; the second reports first. *)
Definition sampleSchedule : Schedule :=
  mkSchedule (fun i => if Nat.even i then envHealthy else envFlaky)
             [1%nat; 0%nat] (fun n => Z.of_nat n * 5000000).

(** Seven requests over two workers. *)
Definition sampleConfig : Config := mkConfig "http://h" 7 2.

(** Exact fractions in place of [float64]: numerator and denominator. *)
Definition fracOfInt (z : Z) : Z * Z := (z, 1).
Definition fracSeconds (d : Duration) : Z * Z := (d, Second).
Definition fracDiv (a b : Z * Z) : Z * Z := (fst a * snd b, snd a * fst b).

(** ** Vocabulary of the further properties *)

(** The characters of [charset]: digits and unaccented letters. *)
Definition alphanumeric (c : ascii) : bool :=
  let n := nat_of_ascii c in
  ((48 <=? n) && (n <=? 57) || (65 <=? n) && (n <=? 90)
   || (97 <=? n) && (n <=? 122))%nat.

(** The total of a list of durations, unbounded. *)
Definition totalDuration (ds : list Duration) : Z := foldr Z.add 0 ds.

(** Records whose five numeric fields are 64-bit values. *)
Definition wellRanged (s : Stats) : Prop :=
  in_int (SuccessfulGET s) /\ in_int (SuccessfulPOST s) /\
  in_int (TotalBytesSent s) /\ in_int (TotalBytesRecv s) /\
  in_int (Errors s).

(** Byte totals against the successes of a record, when no message is
    larger than [B] bytes: only POSTs send bytes. *)
Definition ByteAccount (B : Z) (s : Stats) : Prop :=
  0 <= TotalBytesSent s <= B * SuccessfulPOST s /\
  0 <= TotalBytesRecv s <= B * (SuccessfulGET s + SuccessfulPOST s).

(** A string of [n] characters of [charset]. *)
Definition randomText (n : nat) (s : string) : Prop :=
  String.length s = n /\
  Forall (fun c => alphanumeric c = true) (list_ascii_of_string s).

(** The requests of a worker: a GET of [/comments] or a POST of
    [/comment] under the base URL, with a query of two random strings of
    ten characters; the POST carries the serialization of a comment of user
    "test" with a random message of thirty characters. *)
Definition workerRequest (env : Env) (base : string) (r : Request) : Prop :=
  exists queryKey queryValue,
    randomText 10 queryKey /\ randomText 10 queryValue /\
    (r = getRequest
           (base +:+ "/comments?" +:+ queryKey +:+ "=" +:+ queryValue)
     \/
     exists message t text,
       randomText 30 message /\
       marshal env (mkComment "test" message t) = inl text /\
       r = postRequest
             (base +:+ "/comment?" +:+ queryKey +:+ "=" +:+ queryValue)
             text).

(** Two environments that differ at most in what the target answers. *)
Definition same_but_target (env1 env2 : Env) : Prop :=
  (forall i, rnd env1 i = rnd env2 i) /\
  (forall i, now env1 i = now env2 i) /\
  (forall c, marshal env1 c = marshal env2 c).

(** A target that answers as the healthy one does, except that it answers
    500 to a request with an empty URL. *)
Definition envPicky : Env :=
  mkEnv (fun n r => if String.eqb (url r) "" then inl (mkResponse 500 "")
                    else net envHealthy n r)
        (rnd envHealthy) (now envHealthy) (marshal envHealthy).

(** * The guestbook service ([guestbook/guestbook.go]) *)

(** The service keeps its comments in a Redis list and converts them with
    [encoding/json].  Both are outside the program: the JSON functions are
    the fields of a [Json], and of the Redis server the model keeps what
    the two handlers use of it, the lists it holds by key and the error a
    command meets when the server cannot be reached.  [LPUSH] puts a value
    at the head of a list and [LRANGE key 0 9] returns its first ten
    values. *)

Module Guestbook.

Record Json : Type := mkJson {
  (** [json.NewDecoder(r.Body).Decode(&newComment)] *)
  json_Decode : string -> Comment + error;
  json_Marshal : Comment -> string + error;
  json_Unmarshal : string -> Comment + error;
  (** the bytes [json.NewEncoder(w).Encode(comments)] writes; the empty
      list stands for the nil slice the handler passes when it appended
      nothing *)
  json_Encode : list Comment -> string + error
}.

Record Redis : Type := mkRedis {
  failure : option error;
  lists : gmap string (list string)
}.

Definition LPush (db : Redis) (key value : string) : Redis + error :=
  match failure db with
  | Some e => inr e
  | None =>
    inl (mkRedis None
           (<[key := value :: default [] (lists db !! key)]> (lists db)))
  end.

Definition LRange (db : Redis) (key : string) (start stop : nat)
  : list string + error :=
  match failure db with
  | Some e => inr e
  | None => inl (take (S stop - start) (drop start (default [] (lists db !! key))))
  end.

(** What a handler leaves in its [http.ResponseWriter]. *)
Record Reply : Type := mkReply {
  status : Z;
  header : list (string * string);
  body : string
}.

Definition StatusOK : Z := 200.
Definition StatusCreated : Z := 201.
Definition StatusBadRequest : Z := 400.
Definition StatusNotFound : Z := 404.
Definition StatusInternalServerError : Z := 500.

Definition newline : string := String (ascii_of_nat 10) EmptyString.

(** [err.Error()] *)
Definition Error (e : error) : string :=
  match e with Errorf msg => msg end.

(** [http.Error(w, msg, code)] *)
Definition http_Error (msg : string) (code : Z) : Reply :=
  mkReply code
    [("Content-Type", "text/plain; charset=utf-8");
     ("X-Content-Type-Options", "nosniff")]
    (msg +:+ newline).

(** [postCommentHandler]: the request body, the clock reading of
    [time.Now()] and the store; the reply and the store afterwards. *)
Definition postCommentHandler (json : Json) (requestBody : string) (now : Z)
  (db : Redis) : Reply * Redis :=
  match json_Decode json requestBody with
  | inr e => (http_Error (Error e) StatusBadRequest, db)
  | inl newComment =>
    let newComment :=
      mkComment (Username newComment) (Message newComment) now in
    match json_Marshal json newComment with
    | inr e => (http_Error (Error e) StatusInternalServerError, db)
    | inl commentJSON =>
      match LPush db "comments" commentJSON with
      | inr e => (http_Error (Error e) StatusInternalServerError, db)
      | inl db' => (mkReply StatusCreated [] "", db')
      end
    end
  end.

(** The loop [for _, commentJSON := range commentsJSON] of
    [getCommentsHandler]: the comments decoded so far, or the error that
    ends the handler. *)
Fixpoint decodeComments (json : Json) (commentsJSON : list string)
  (comments : list Comment) : list Comment + error :=
  match commentsJSON with
  | [] => inl comments
  | commentJSON :: rest =>
    match json_Unmarshal json commentJSON with
    | inr e => inr e
    | inl comment => decodeComments json rest (comments ++ [comment])
    end
  end.

(** The reply of a successful [getCommentsHandler]; an encoding error is
    dropped by the handler and nothing is written. *)
Definition commentsReply (json : Json) (comments : list Comment) : Reply :=
  mkReply StatusOK [("Content-Type", "application/json")]
    match json_Encode json comments with
    | inl text => text
    | inr _ => ""
    end.

Definition getCommentsHandler (json : Json) (db : Redis) : Reply :=
  match LRange db "comments" 0 9 with
  | inr e => http_Error (Error e) StatusInternalServerError
  | inl commentsJSON =>
    match decodeComments json commentsJSON [] with
    | inr e => http_Error (Error e) StatusInternalServerError
    | inl comments => commentsReply json comments
    end
  end.

(** A request as the two routes of [main] see it: its path, its body and
    the clock reading at its arrival.  A pattern without a trailing slash
    matches its path alone, and any other path is answered by
    [http.NotFound]. *)
Record HttpRequest : Type := mkHttpRequest {
  path : string;
  requestBody : string;
  arrivedAt : Z
}.

Definition serve (json : Json) (req : HttpRequest) (db : Redis)
  : Reply * Redis :=
  if String.eqb (path req) "/comment" then
    postCommentHandler json (requestBody req) (arrivedAt req) db
  else if String.eqb (path req) "/comments" then
    (getCommentsHandler json db, db)
  else (http_Error "404 page not found" StatusNotFound, db).

(** The store after a sequence of requests served one after the other. *)
Definition serveAll (json : Json) (reqs : list HttpRequest) (db : Redis)
  : Redis :=
  foldl (fun db req => snd (serve json req db)) db reqs.

(** The comment a request adds to the guestbook, if it does: the request
    goes to [/comment], its body decodes, and the comment with the
    server's time serializes. *)
Definition accepted (json : Json) (req : HttpRequest)
  : option (Comment * string) :=
  if String.eqb (path req) "/comment" then
    match json_Decode json (requestBody req) with
    | inl c =>
      let c' := mkComment (Username c) (Message c) (arrivedAt req) in
      match json_Marshal json c' with
      | inl text => Some (c', text)
      | inr _ => None
      end
    | inr _ => None
    end
  else None.

(** The entries of the list the handlers use. *)
Definition stored (db : Redis) : list string :=
  default [] (lists db !! "comments").

(** Unmarshalling undoes marshalling. *)
Definition round_trip (json : Json) : Prop :=
  forall c text, json_Marshal json c = inl text ->
                 json_Unmarshal json text = inl c.

(** A small codec for the examples: a comment of user "anon" with a time
    below 256 is one character for the time followed by the message; the
    decoder of request bodies takes the body for the message. *)
Definition sampleJson : Json :=
  mkJson
    (fun body => inl (mkComment "anon" body 255))
    (fun c => if String.eqb (Username c) "anon" && (0 <=? Time c)
                 && (Time c <? 256)
              then inl (String (ascii_of_nat (Z.to_nat (Time c))) (Message c))
              else inr (Errorf "unsupported value"))
    (fun text => match text with
                 | String a m => inl (mkComment "anon" m (Z.of_nat (nat_of_ascii a)))
                 | EmptyString => inr (Errorf "unexpected end of JSON input")
                 end)
    (fun cs => inl (String.concat ";" (map Message cs))).

Definition emptyRedis : Redis := mkRedis None ∅.

End Guestbook.

(** ** What an iteration draws and asks *)

(** The two query strings, the coin and, for a POST, the message and the
    comment of the iteration entered in world [w]: the first twenty random
    draws make the query, the twenty-first is the coin and the next thirty
    make the message; the comment takes the next clock reading. *)
Definition queryKeyOf (env : Env) (w : World) : string :=
  fst (randomString env 10 w).

Definition queryValueOf (env : Env) (w : World) : string :=
  fst (randomString env 10
         (mkWorld (calls w) (draws w + 10) (ticks w) (slept w))).

Definition coinOf (env : Env) (w : World) : Z :=
  rnd env (draws w + 20) mod 2.

Definition messageOf (env : Env) (w : World) : string :=
  fst (randomString env 30
         (mkWorld (calls w) (draws w + 21) (ticks w) (slept w))).

Definition commentOf (env : Env) (w : World) : Comment :=
  mkComment "test" (messageOf env w) (now env (ticks w)).

Definition getURL (env : Env) (base : string) (w : World) : string :=
  base +:+ "/comments?" +:+ queryKeyOf env w +:+ "=" +:+ queryValueOf env w.

Definition postURL (env : Env) (base : string) (w : World) : string :=
  base +:+ "/comment?" +:+ queryKeyOf env w +:+ "=" +:+ queryValueOf env w.

(** The worlds in which the iteration entered in [w] calls its requester:
    after 21 draws for a GET, after 51 draws and the clock reading of the
    comment for a POST. *)
Definition atGET (w : World) : World :=
  mkWorld (calls w) (draws w + 21) (ticks w) (slept w).

Definition atPOST (w : World) : World :=
  mkWorld (calls w) (draws w + 51) (S (ticks w)) (slept w).

(** The request of the iteration entered in [w] fails: all ten attempts
    of its requester meet a transport error, or its comment does not
    serialize. *)
Definition requestFails (env : Env) (base : string) (w : World) : Prop :=
  (coinOf env w = 0 /\
   forall j, (j < 10)%nat ->
     exists e, net env (calls w + j) (getRequest (getURL env base w)) = inr e)
  \/
  (coinOf env w <> 0 /\
   ((exists e, marshal env (commentOf env w) = inr e) \/
    exists text,
      marshal env (commentOf env w) = inl text /\
      forall j, (j < 10)%nat ->
        exists e,
          net env (calls w + j) (postRequest (postURL env base w) text)
          = inr e)).

(** A target that refuses the first two connections and then answers 500;
    the n-th clock reading is n squared. *)
Definition envFlaky500 : Env :=
  mkEnv (fun n _ => if (n <? 2)%nat then inr (Errorf "connection refused")
                    else inl (mkResponse 500 "oops"))
        (fun _ => 0) (fun n => Z.of_nat n * Z.of_nat n) marshalMessage.

(** * Properties *)

(** ** Machine arithmetic *)

Lemma wrap64_id (z : Z) : in_int z -> wrap64 z = z.
Proof.
  unfold in_int, min_int, max_int, wrap64. intros H.
  rewrite Z.mod_small; lia.
Qed.

Lemma wrap64_range (z : Z) : in_int (wrap64 z).
Proof.
  unfold in_int, min_int, max_int, wrap64.
  pose proof (Z.mod_pos_bound (z + 2 ^ 63) (2 ^ 64)). lia.
Qed.

Lemma wrap64_add_l (a b : Z) : wrap64 (wrap64 a + b) = wrap64 (a + b).
Proof.
  unfold wrap64. f_equal.
  replace ((a + 2 ^ 63) mod 2 ^ 64 - 2 ^ 63 + b + 2 ^ 63)
    with ((a + 2 ^ 63) mod 2 ^ 64 + b) by lia.
  rewrite Zplus_mod_idemp_l. f_equal. lia.
Qed.

Lemma wrap64_add_r (a b : Z) : wrap64 (a + wrap64 b) = wrap64 (a + b).
Proof. rewrite (Z.add_comm a), wrap64_add_l. f_equal. lia. Qed.

Lemma int_add_comm (a b : Z) : int_add a b = int_add b a.
Proof. unfold int_add. f_equal. lia. Qed.

Lemma int_add_assoc (a b c : Z) :
  int_add (int_add a b) c = int_add a (int_add b c).
Proof.
  unfold int_add. rewrite wrap64_add_l, wrap64_add_r. f_equal. lia.
Qed.

Lemma int_add_exact (a b : Z) : in_int (a + b) -> int_add a b = a + b.
Proof. apply wrap64_id. Qed.

(** ** The delay schedule *)

Lemma delays_length (n : nat) (b : Duration) : length (delays n b) = n.
Proof. revert b. induction n as [|n IH]; intros b; simpl; [|rewrite IH]; done. Qed.

Lemma nextBackoff_min (b : Duration) :
  0 <= b <= 5 * Second -> nextBackoff b = Z.min (2 * b) (5 * Second).
Proof.
  intros Hb. unfold nextBackoff, int_mul.
  rewrite wrap64_id.
  - destruct (Z.ltb_spec (5 * Second) (b * 2)); lia.
  - unfold in_int, min_int, max_int, Second, Millisecond, Microsecond,
      Nanosecond in *. lia.
Qed.

(** ** The requesters *)

Section Requester.

Variable env : Env.

Lemma backoffLoopGET_fail u n b w e :
  net env (calls w) (getRequest u) = inr e ->
  backoffLoopGET env u (S n) b w =
  backoffLoopGET env u n (nextBackoff b)
    (mkWorld (S (calls w)) (draws w) (S (S (ticks w))) (slept w ++ [b])).
Proof.
  intros H. simpl.
  unfold bind, time_Now, http_Get, http_do, time_Since, time_Sleep, bind,
    time_Now, ret; simpl.
  unfold getRequest in H. by rewrite H.
Qed.

Lemma backoffLoopGET_ok u n b w rsp :
  net env (calls w) (getRequest u) = inl rsp ->
  backoffLoopGET env u (S n) b w =
  (mkResult (Some rsp) (now env (S (ticks w)) - now env (ticks w)) 0
     (io_Copy_Discard (Body rsp)) None,
   mkWorld (S (calls w)) (draws w) (S (S (ticks w))) (slept w)).
Proof.
  intros H. simpl.
  unfold bind, time_Now, http_Get, http_do, time_Since, time_Sleep, bind,
    time_Now, ret; simpl.
  unfold getRequest in H. by rewrite H.
Qed.

Lemma backoffLoopPOST_fail u c n b w js e :
  marshal env c = inl js ->
  net env (calls w) (postRequest u js) = inr e ->
  backoffLoopPOST env u c (S n) b w =
  backoffLoopPOST env u c n (nextBackoff b)
    (mkWorld (S (calls w)) (draws w) (S (S (ticks w))) (slept w ++ [b])).
Proof.
  intros Hm H. simpl.
  unfold bind, time_Now; simpl. rewrite Hm.
  unfold bind, time_Now, http_Post, http_do, time_Since, time_Sleep, bind,
    time_Now, ret; simpl.
  unfold postRequest in H. by rewrite H.
Qed.

Lemma backoffLoopPOST_ok u c n b w js rsp :
  marshal env c = inl js ->
  net env (calls w) (postRequest u js) = inl rsp ->
  backoffLoopPOST env u c (S n) b w =
  (mkResult (Some rsp) (now env (S (ticks w)) - now env (ticks w))
     (Z.of_nat (String.length js)) (io_Copy_Discard (Body rsp)) None,
   mkWorld (S (calls w)) (draws w) (S (S (ticks w))) (slept w)).
Proof.
  intros Hm H. simpl.
  unfold bind, time_Now; simpl. rewrite Hm.
  unfold bind, time_Now, http_Post, http_do, time_Since, time_Sleep, bind,
    time_Now, ret; simpl.
  unfold postRequest in H. by rewrite H.
Qed.

Lemma backoffLoopPOST_marshal_error u c n b w e :
  marshal env c = inr e ->
  backoffLoopPOST env u c (S n) b w =
  (mkResult None 0 0 0 (Some e),
   mkWorld (calls w) (draws w) (S (ticks w)) (slept w)).
Proof.
  intros Hm. simpl. unfold bind, time_Now; simpl. by rewrite Hm.
Qed.

Lemma after_fail_step w b a f :
  after (mkWorld (S (calls w)) (draws w) (S (S (ticks w))) (slept w ++ [b]))
        a f (nextBackoff b)
  = after w (S a) (S f) b.
Proof.
  unfold after; simpl. rewrite <- app_assoc. simpl.
  f_equal; lia.
Qed.

Lemma attemptLatency_first w :
  attemptLatency env w 1 = now env (S (ticks w)) - now env (ticks w).
Proof. unfold attemptLatency. f_equal; f_equal; lia. Qed.

Lemma attemptLatency_shift w b f :
  attemptLatency env
    (mkWorld (S (calls w)) (draws w) (S (S (ticks w))) (slept w ++ [b]))
    (S f)
  = attemptLatency env w (S (S f)).
Proof. unfold attemptLatency. simpl ticks. f_equal; f_equal; lia. Qed.

Lemma backoffLoopGET_exhausted u n : forall b w,
  (forall j, (j < n)%nat ->
     exists e, net env (calls w + j) (getRequest u) = inr e) ->
  backoffLoopGET env u n b w =
  (mkResult None 0 0 0 (Some errBackoffExceeded), after w n n b).
Proof.
  induction n as [|n IH]; intros b w H.
  - simpl. unfold ret, after. simpl. rewrite app_nil_r.
    destruct w; simpl. do 2 f_equal; lia.
  - destruct (H 0%nat) as [e He]; [lia|]. rewrite Nat.add_0_r in He.
    rewrite (backoffLoopGET_fail _ _ _ _ _ He), IH.
    + by rewrite after_fail_step.
    + intros j Hj. simpl. destruct (H (S j)) as [e' He']; [lia|].
      exists e'. rewrite <- He'. f_equal. lia.
Qed.

Lemma backoffLoopPOST_exhausted u c js n : forall b w,
  marshal env c = inl js ->
  (forall j, (j < n)%nat ->
     exists e, net env (calls w + j) (postRequest u js) = inr e) ->
  backoffLoopPOST env u c n b w =
  (mkResult None 0 0 0 (Some errBackoffExceeded), after w n n b).
Proof.
  induction n as [|n IH]; intros b w Hm H.
  - simpl. unfold ret, after. simpl. rewrite app_nil_r.
    destruct w; simpl. do 2 f_equal; lia.
  - destruct (H 0%nat) as [e He]; [lia|]. rewrite Nat.add_0_r in He.
    rewrite (backoffLoopPOST_fail _ _ _ _ _ _ _ Hm He), IH; [|done|].
    + by rewrite after_fail_step.
    + intros j Hj. simpl. destruct (H (S j)) as [e' He']; [lia|].
      exists e'. rewrite <- He'. f_equal. lia.
Qed.

Lemma backoffLoopGET_succeeds u f : forall n b w rsp,
  (f < n)%nat ->
  (forall j, (j < f)%nat ->
     exists e, net env (calls w + j) (getRequest u) = inr e) ->
  net env (calls w + f) (getRequest u) = inl rsp ->
  backoffLoopGET env u n b w =
  (mkResult (Some rsp) (attemptLatency env w (S f)) 0
     (io_Copy_Discard (Body rsp)) None,
   after w (S f) f b).
Proof.
  induction f as [|f IH]; intros n b w rsp Hn Hfail Hok.
  - destruct n as [|n]; [lia|]. rewrite Nat.add_0_r in Hok.
    rewrite (backoffLoopGET_ok _ _ _ _ _ Hok).
    rewrite attemptLatency_first. unfold after. simpl.
    rewrite app_nil_r. do 2 f_equal; lia.
  - destruct n as [|n]; [lia|].
    destruct (Hfail 0%nat) as [e He]; [lia|]. rewrite Nat.add_0_r in He.
    rewrite (backoffLoopGET_fail _ _ _ _ _ He).
    rewrite (IH n _ _ rsp); [| lia | |].
    + by rewrite after_fail_step, attemptLatency_shift.
    + intros j Hj. simpl. destruct (Hfail (S j)) as [e' He']; [lia|].
      exists e'. rewrite <- He'. f_equal. lia.
    + simpl. rewrite <- Hok. f_equal. lia.
Qed.

Lemma backoffLoopPOST_succeeds u c js f : forall n b w rsp,
  marshal env c = inl js ->
  (f < n)%nat ->
  (forall j, (j < f)%nat ->
     exists e, net env (calls w + j) (postRequest u js) = inr e) ->
  net env (calls w + f) (postRequest u js) = inl rsp ->
  backoffLoopPOST env u c n b w =
  (mkResult (Some rsp) (attemptLatency env w (S f))
     (Z.of_nat (String.length js)) (io_Copy_Discard (Body rsp)) None,
   after w (S f) f b).
Proof.
  induction f as [|f IH]; intros n b w rsp Hm Hn Hfail Hok.
  - destruct n as [|n]; [lia|]. rewrite Nat.add_0_r in Hok.
    rewrite (backoffLoopPOST_ok _ _ _ _ _ _ _ Hm Hok).
    rewrite attemptLatency_first. unfold after. simpl.
    rewrite app_nil_r. do 2 f_equal; lia.
  - destruct n as [|n]; [lia|].
    destruct (Hfail 0%nat) as [e He]; [lia|]. rewrite Nat.add_0_r in He.
    rewrite (backoffLoopPOST_fail _ _ _ _ _ _ _ Hm He).
    rewrite (IH n _ _ rsp); [| done | lia | |].
    + by rewrite after_fail_step, attemptLatency_shift.
    + intros j Hj. simpl. destruct (Hfail (S j)) as [e' He']; [lia|].
      exists e'. rewrite <- He'. f_equal. lia.
    + simpl. rewrite <- Hok. f_equal. lia.
Qed.

End Requester.

(** ** The worker *)

Section Worker.

Variable env : Env.
Variable base : string.

Lemma randomString_world n : forall w,
  snd (randomString env n w)
  = mkWorld (calls w) (draws w + n) (ticks w) (slept w).
Proof.
  induction n as [|n IH]; intros w; simpl.
  - destruct w; simpl. f_equal; lia.
  - unfold bind, rand_Intn.
    match goal with
    | |- context [randomString env n ?w1] =>
        specialize (IH w1); destruct (randomString env n w1) as [str w2]
    end.
    simpl in *. subst w2. simpl. f_equal; lia.
Qed.

(** What a requester can return: an error, or the body size of a
    response the network delivered. *)
Lemma backoffLoopGET_result (P : Z -> Prop) u n : forall b w,
  message_sizes P env ->
  let r := fst (backoffLoopGET env u n b w) in
  (exists e, err r = Some e) \/
  (err r = None /\ bytesSent r = 0 /\ P (bytesRecv r)).
Proof.
  induction n as [|n IH]; intros b w HP.
  - left. by eexists.
  - destruct (net env (calls w) (getRequest u)) as [rsp|e] eqn:E.
    + rewrite (backoffLoopGET_ok _ _ _ _ _ _ E). simpl. right.
      repeat split. by apply (proj1 HP _ _ _ E).
    + rewrite (backoffLoopGET_fail _ _ _ _ _ _ E). by apply IH.
Qed.

Lemma backoffLoopPOST_result (P : Z -> Prop) u c n : forall b w,
  message_sizes P env ->
  let r := fst (backoffLoopPOST env u c n b w) in
  (exists e, err r = Some e) \/
  (err r = None /\ P (bytesSent r) /\ P (bytesRecv r)).
Proof.
  induction n as [|n IH]; intros b w HP.
  - left. by eexists.
  - destruct (marshal env c) as [js|e] eqn:Em.
    + destruct (net env (calls w) (postRequest u js)) as [rsp|e] eqn:E.
      * rewrite (backoffLoopPOST_ok _ _ _ _ _ _ _ _ Em E). simpl. right.
        repeat split.
        -- by apply (proj2 HP _ _ Em).
        -- by apply (proj1 HP _ _ _ E).
      * rewrite (backoffLoopPOST_fail _ _ _ _ _ _ _ _ Em E). by apply IH.
    + rewrite (backoffLoopPOST_marshal_error _ _ _ _ _ _ _ Em). simpl.
      left. by eexists.
Qed.

Lemma iteration_step (P : Z -> Prop) s w :
  message_sizes P env -> P 0 ->
  Step P s (fst (iteration env base s w)).
Proof.
  intros HP H0. unfold iteration, bind.
  destruct (randomString env 10 w) as [queryKey w1].
  destruct (randomString env 10 w1) as [queryValue w2].
  destruct (rand_Intn env 2 w2) as [coin w3].
  destruct (coin =? 0).
  - match goal with
    | |- context [exponentialBackoffGET env ?u w3] =>
        pose proof (backoffLoopGET_result P u 10 (20 * Millisecond) w3 HP)
          as Hr;
        unfold exponentialBackoffGET;
        destruct (backoffLoopGET env u 10 (20 * Millisecond) w3) as [r w4]
    end.
    simpl in Hr. destruct Hr as [[e He]|(He & Hs & Hr)]; rewrite He; simpl.
    + by apply step_error.
    + apply (step_get P _ _ (bytesSent r) (bytesRecv r) (latency r));
        [rewrite Hs| |]; done.
  - destruct (randomString env 30 w3) as [comment w4].
    destruct (time_Now env w4) as [t w5].
    match goal with
    | |- context [exponentialBackoffPOST env ?u ?c w5] =>
        pose proof (backoffLoopPOST_result P u c 10 (20 * Millisecond) w5 HP)
          as Hr;
        unfold exponentialBackoffPOST;
        destruct (backoffLoopPOST env u c 10 (20 * Millisecond) w5)
          as [r w6]
    end.
    simpl in Hr. destruct Hr as [[e He]|(He & Hs & Hr)]; rewrite He; simpl.
    + by apply step_error.
    + by apply (step_post P _ _ (bytesSent r) (bytesRecv r) (latency r)).
Qed.

Lemma requestLoop_S n s w :
  requestLoop env base (S n) s w
  = requestLoop env base n (fst (iteration env base s w))
      (snd (iteration env base s w)).
Proof.
  cbn [requestLoop]. unfold bind.
  destruct (iteration env base s w) as [s' w']. reflexivity.
Qed.

Lemma Step_CountInv P i s s' :
  CountInv i s -> Step P s s' -> i + 1 <= max_int -> CountInv (i + 1) s'.
Proof.
  unfold CountInv, iterationsCounted.
  intros (Hg & Hp & He & Hi & Hl) Hstep Hmax.
  destruct Hstep as [->|sent recv lat _ _ ->|sent recv lat _ _ ->]; simpl;
    rewrite ?length_app; simpl;
    rewrite int_add_exact by (unfold in_int, min_int, max_int in *; lia);
    repeat split; lia.
Qed.

Lemma Step_BytesInv B i s s' :
  BytesInv B i s -> Step (fun x => 0 <= x <= B) s s' ->
  0 <= i -> 0 <= B -> B * (i + 1) <= max_int -> BytesInv B (i + 1) s'.
Proof.
  unfold BytesInv. intros (Hs & Hr) Hstep Hi HB Hmax.
  destruct Hstep as [->|sent recv lat ? ? ->|sent recv lat ? ? ->]; simpl;
    rewrite ?int_add_exact
      by (unfold in_int, min_int, max_int in *; nia);
    nia.
Qed.

Lemma message_sizes_True : message_sizes (fun _ => True) env.
Proof. by split. Qed.

Lemma requestLoop_CountInv n : forall i s w,
  CountInv i s -> i + Z.of_nat n <= max_int ->
  CountInv (i + Z.of_nat n) (fst (requestLoop env base n s w)).
Proof.
  induction n as [|n IH]; intros i s w Hinv Hmax.
  - simpl. by rewrite Z.add_0_r.
  - rewrite requestLoop_S.
    replace (i + Z.of_nat (S n)) with ((i + 1) + Z.of_nat n) by lia.
    apply IH; [|lia].
    apply (Step_CountInv (fun _ => True) i s); [done| |lia].
    apply iteration_step; [apply message_sizes_True|done].
Qed.

Lemma requestLoop_BytesInv B n : forall i s w,
  message_sizes (fun x => 0 <= x <= B) env ->
  BytesInv B i s -> 0 <= i -> 0 <= B ->
  B * (i + Z.of_nat n) <= max_int ->
  BytesInv B (i + Z.of_nat n) (fst (requestLoop env base n s w)).
Proof.
  induction n as [|n IH]; intros i s w HP Hinv Hi HB Hmax.
  - simpl. by rewrite Z.add_0_r.
  - rewrite requestLoop_S.
    replace (i + Z.of_nat (S n)) with ((i + 1) + Z.of_nat n) in * by lia.
    apply IH; [done| |lia|done|done].
    apply (Step_BytesInv B i s); [done| |done|done|nia].
    apply iteration_step; [done|lia].
Qed.

Lemma zeroStats_CountInv : CountInv 0 zeroStats.
Proof. by repeat split. Qed.

Lemma zeroStats_BytesInv B : BytesInv B 0 zeroStats.
Proof. unfold BytesInv; simpl. lia. Qed.

Lemma makeRequests_CountInv n w :
  0 <= n <= max_int -> CountInv n (fst (makeRequests env base n w)).
Proof.
  intros Hn. unfold makeRequests.
  pose proof (requestLoop_CountInv (Z.to_nat n) 0 zeroStats w
                zeroStats_CountInv) as H.
  rewrite Z2Nat.id, Z.add_0_l in H by lia. apply H. lia.
Qed.

Lemma makeRequests_BytesInv B n w :
  message_sizes (fun x => 0 <= x <= B) env ->
  0 <= n -> 0 <= B -> B * n <= max_int ->
  BytesInv B n (fst (makeRequests env base n w)).
Proof.
  intros HP Hn HB Hmax. unfold makeRequests.
  pose proof (requestLoop_BytesInv B (Z.to_nat n) 0 zeroStats w HP
                (zeroStats_BytesInv B)) as H.
  rewrite Z2Nat.id, Z.add_0_l in H by lia. apply H; lia.
Qed.

(** *** A target that is down *)

Lemma iteration_always_fails s w :
  always_fails env -> fst (iteration env base s w) = recordError s.
Proof.
  intros Hdown. unfold iteration, bind.
  destruct (randomString env 10 w) as [queryKey w1].
  destruct (randomString env 10 w1) as [queryValue w2].
  destruct (rand_Intn env 2 w2) as [coin w3].
  destruct (coin =? 0).
  - unfold exponentialBackoffGET.
    rewrite backoffLoopGET_exhausted by (intros; apply Hdown).
    reflexivity.
  - destruct (randomString env 30 w3) as [comment w4].
    destruct (time_Now env w4) as [t w5].
    unfold exponentialBackoffPOST.
    match goal with
    | |- context [backoffLoopPOST env ?u ?c _ _ _] =>
        destruct (marshal env c) as [js|e] eqn:Em;
        [ rewrite (backoffLoopPOST_exhausted env u c js)
            by (done || intros; apply Hdown)
        | rewrite (backoffLoopPOST_marshal_error env u c _ _ _ e Em) ]
    end; reflexivity.
Qed.

Lemma requestLoop_always_fails n : forall s w,
  always_fails env -> in_int (Errors s) ->
  fst (requestLoop env base n s w)
  = mkStats (SuccessfulGET s) (SuccessfulPOST s) (TotalBytesSent s)
      (TotalBytesRecv s) (wrap64 (Errors s + Z.of_nat n)) (Latencies s).
Proof.
  induction n as [|n IH]; intros s w Hdown Hs.
  - simpl. rewrite Z.add_0_r, wrap64_id by done. by destruct s.
  - rewrite requestLoop_S, IH; rewrite ?iteration_always_fails by done;
      [|done|apply wrap64_range].
    simpl. unfold int_add. rewrite wrap64_add_l. do 2 f_equal. lia.
Qed.

Lemma makeRequests_always_fails n w :
  always_fails env -> 0 <= n <= max_int ->
  fst (makeRequests env base n w) = mkStats 0 0 0 0 n [].
Proof.
  intros Hdown Hn. unfold makeRequests.
  rewrite requestLoop_always_fails; [|done|].
  - simpl. rewrite Z2Nat.id, wrap64_id by (unfold in_int, min_int in *; lia).
    reflexivity.
  - unfold in_int, min_int, max_int. simpl. lia.
Qed.

(** *** A target that answers the first attempt *)

Lemma iteration_first_response s w rsp :
  (forall r, net env (calls w) r = inl rsp) ->
  (forall c, exists js, marshal env c = inl js) ->
  exists sent lat w',
    (iteration env base s w
       = (recordGET s 0 (io_Copy_Discard (Body rsp)) lat, w') \/
     iteration env base s w
       = (recordPOST s sent (io_Copy_Discard (Body rsp)) lat, w')) /\
    calls w' = S (calls w) /\ slept w' = slept w.
Proof.
  intros Hnet Hm. unfold iteration, bind.
  pose proof (randomString_world 10 w) as H1.
  destruct (randomString env 10 w) as [queryKey w1]. simpl in H1.
  pose proof (randomString_world 10 w1) as H2.
  destruct (randomString env 10 w1) as [queryValue w2]. simpl in H2.
  subst w1 w2. unfold rand_Intn. cbn [calls draws ticks slept].
  match goal with |- context [?c =? 0] => destruct (c =? 0) end.
  - unfold exponentialBackoffGET.
    rewrite (backoffLoopGET_ok env _ _ _ _ rsp) by apply Hnet.
    unfold ret. cbn [err bytesSent bytesRecv latency].
    eexists 0, _, _. split; [left; reflexivity|]. by split.
  - match goal with
    | |- context [randomString env 30 ?w3] =>
        pose proof (randomString_world 30 w3) as H3;
        destruct (randomString env 30 w3) as [comment w4]
    end.
    simpl in H3. subst w4. unfold time_Now.
    cbn [calls draws ticks slept]. unfold exponentialBackoffPOST.
    match goal with
    | |- context [backoffLoopPOST env ?u ?c _ _ _] =>
        destruct (Hm c) as [js Hjs];
        rewrite (backoffLoopPOST_ok env u c _ _ _ js rsp Hjs)
          by apply Hnet
    end.
    unfold ret. cbn [err bytesSent bytesRecv latency].
    eexists _, _, _. split; [right; reflexivity|]. by split.
Qed.

End Worker.

(** ** The aggregator *)

Section Aggregator.

Lemma additive_SuccessfulGET : additive SuccessfulGET.
Proof. by intros acc s. Qed.
Lemma additive_SuccessfulPOST : additive SuccessfulPOST.
Proof. by intros acc s. Qed.
Lemma additive_TotalBytesSent : additive TotalBytesSent.
Proof. by intros acc s. Qed.
Lemma additive_TotalBytesRecv : additive TotalBytesRecv.
Proof. by intros acc s. Qed.
Lemma additive_Errors : additive Errors.
Proof. by intros acc s. Qed.

Lemma foldl_mergeStats_field f l : forall acc,
  additive f -> in_int (f acc) ->
  f (foldl mergeStats acc l) = wrap64 (f acc + sumOf f l).
Proof.
  induction l as [|s l IH]; intros acc Hf Hacc; simpl.
  - by rewrite Z.add_0_r, wrap64_id.
  - rewrite IH, Hf; [|done|rewrite Hf; apply wrap64_range].
    unfold int_add. rewrite wrap64_add_l. f_equal. lia.
Qed.

Lemma aggregate_field f l :
  additive f -> f zeroStats = 0 -> f (aggregate l) = wrap64 (sumOf f l).
Proof.
  intros Hf H0. unfold aggregate. rewrite foldl_mergeStats_field; [|done|].
  - by rewrite H0.
  - rewrite H0. unfold in_int, min_int, max_int. lia.
Qed.

Lemma foldl_mergeStats_Latencies l : forall acc,
  Latencies (foldl mergeStats acc l)
  = Latencies acc ++ concat (map Latencies l).
Proof.
  induction l as [|s l IH]; intros acc; simpl.
  - by rewrite app_nil_r.
  - rewrite IH. simpl. by rewrite <- app_assoc.
Qed.

Lemma aggregate_Latencies l :
  Latencies (aggregate l) = concat (map Latencies l).
Proof. unfold aggregate. by rewrite foldl_mergeStats_Latencies. Qed.

(** *** Arrival order *)

Lemma sumOf_perm f (l1 l2 : list Stats) :
  l1 ≡ₚ l2 -> sumOf f l1 = sumOf f l2.
Proof.
  induction 1 as [|x l l' _ IH|x y l|l l' l'' _ IH1 _ IH2]; simpl;
    [done|by rewrite IH|lia|congruence].
Qed.

Lemma concat_Latencies_perm (l1 l2 : list Stats) :
  l1 ≡ₚ l2 ->
  concat (map Latencies l1) ≡ₚ concat (map Latencies l2).
Proof.
  induction 1 as [|x l l' _ IH|x y l|l l' l'' _ IH1 _ IH2]; simpl.
  - done.
  - by rewrite IH.
  - rewrite !app_assoc. f_equiv. apply Permutation_app_comm.
  - by etrans.
Qed.

Lemma sortDurationSlice_Sorted l : Sorted Z.le (sortDurationSlice l).
Proof. apply (Sorted_merge_sort Z.le). Qed.

Lemma sortDurationSlice_perm l : sortDurationSlice l ≡ₚ l.
Proof. apply (merge_sort_Permutation Z.le). Qed.

Lemma sortDurationSlice_length l :
  length (sortDurationSlice l) = length l.
Proof. by rewrite sortDurationSlice_perm. Qed.

(** The sorted slice depends on the content only. *)
Lemma sortDurationSlice_order_insensitive (l1 l2 : list Duration) :
  l1 ≡ₚ l2 -> sortDurationSlice l1 = sortDurationSlice l2.
Proof.
  intros H. apply (Sorted_unique Z.le).
  - apply sortDurationSlice_Sorted.
  - apply sortDurationSlice_Sorted.
  - by rewrite !sortDurationSlice_perm.
Qed.

(** *** Exact sums *)

Lemma sumOf_CountInv k (l : list Stats) :
  Forall (CountInv k) l ->
  0 <= sumOf SuccessfulGET l /\ 0 <= sumOf SuccessfulPOST l /\
  0 <= sumOf Errors l /\
  sumOf SuccessfulGET l + sumOf SuccessfulPOST l + sumOf Errors l
    = k * Z.of_nat (length l) /\
  Z.of_nat (length (concat (map Latencies l)))
    = sumOf SuccessfulGET l + sumOf SuccessfulPOST l.
Proof.
  induction 1 as [|s l Hs _ IH]; simpl; [lia|].
  rewrite length_app. unfold CountInv, iterationsCounted in Hs. lia.
Qed.

Lemma sumOf_BytesInv B k (l : list Stats) :
  Forall (BytesInv B k) l ->
  0 <= sumOf TotalBytesSent l <= B * (k * Z.of_nat (length l)) /\
  0 <= sumOf TotalBytesRecv l <= B * (k * Z.of_nat (length l)).
Proof.
  induction 1 as [|s l Hs _ IH]; simpl; [lia|].
  unfold BytesInv in Hs. nia.
Qed.

Lemma aggregate_exact f (l : list Stats) :
  additive f -> f zeroStats = 0 -> 0 <= sumOf f l <= max_int ->
  f (aggregate l) = sumOf f l.
Proof.
  intros Hf H0 Hr. rewrite aggregate_field by done.
  apply wrap64_id. unfold in_int, min_int, max_int in *. lia.
Qed.

Lemma aggregate_CountInv k (l : list Stats) :
  Forall (CountInv k) l -> k * Z.of_nat (length l) <= max_int ->
  CountInv (k * Z.of_nat (length l)) (aggregate l) /\
  SuccessfulGET (aggregate l) = sumOf SuccessfulGET l /\
  SuccessfulPOST (aggregate l) = sumOf SuccessfulPOST l /\
  Errors (aggregate l) = sumOf Errors l.
Proof.
  intros Hl Hmax. destruct (sumOf_CountInv k l Hl) as (Hg & Hp & He & Hs & Hn).
  assert (SuccessfulGET (aggregate l) = sumOf SuccessfulGET l) as Eg
    by (apply aggregate_exact; [apply additive_SuccessfulGET|done|lia]).
  assert (SuccessfulPOST (aggregate l) = sumOf SuccessfulPOST l) as Ep
    by (apply aggregate_exact; [apply additive_SuccessfulPOST|done|lia]).
  assert (Errors (aggregate l) = sumOf Errors l) as Ee
    by (apply aggregate_exact; [apply additive_Errors|done|lia]).
  unfold CountInv, iterationsCounted.
  rewrite aggregate_Latencies, Eg, Ep, Ee. repeat split; lia.
Qed.

Lemma aggregate_BytesInv B k (l : list Stats) :
  Forall (BytesInv B k) l -> B * (k * Z.of_nat (length l)) <= max_int ->
  BytesInv B (k * Z.of_nat (length l)) (aggregate l) /\
  TotalBytesSent (aggregate l) = sumOf TotalBytesSent l /\
  TotalBytesRecv (aggregate l) = sumOf TotalBytesRecv l.
Proof.
  intros Hl Hmax. destruct (sumOf_BytesInv B k l Hl) as (Hs & Hr).
  assert (TotalBytesSent (aggregate l) = sumOf TotalBytesSent l) as Es
    by (apply aggregate_exact; [apply additive_TotalBytesSent|done|lia]).
  assert (TotalBytesRecv (aggregate l) = sumOf TotalBytesRecv l) as Er
    by (apply aggregate_exact; [apply additive_TotalBytesRecv|done|lia]).
  unfold BytesInv. rewrite Es, Er. repeat split; lia.
Qed.

End Aggregator.

(** ** The run *)

Section Run.

Variable cfg : Config.
Variable sch : Schedule.

Hypothesis numRequests_range : 0 <= numRequests cfg <= max_int.
Hypothesis threads_positive : 0 < threads cfg.

Lemma requestsPerThread_exact :
  int_quot (numRequests cfg) (threads cfg)
    = numRequests cfg / threads cfg /\
  0 <= numRequests cfg / threads cfg /\
  threads cfg * (numRequests cfg / threads cfg) <= numRequests cfg.
Proof.
  pose proof (Z.mul_div_le (numRequests cfg) (threads cfg) threads_positive).
  pose proof (Z.div_pos (numRequests cfg) (threads cfg)).
  unfold int_quot. rewrite Z.quot_div_nonneg by lia.
  rewrite wrap64_id; [lia|].
  unfold in_int, min_int, max_int in *. nia.
Qed.

Lemma workers_CountInv (ids : list nat) :
  Forall (CountInv (numRequests cfg / threads cfg))
    (map (workerStats cfg sch
            (int_quot (numRequests cfg) (threads cfg))) ids).
Proof.
  destruct requestsPerThread_exact as (-> & H0 & Hle).
  induction ids as [|i ids IH]; simpl; constructor; [|done].
  apply makeRequests_CountInv. nia.
Qed.

Lemma workers_BytesInv B (ids : list nat) :
  (forall i, messages_within B (envOf sch i)) ->
  0 <= B -> B * numRequests cfg <= max_int ->
  Forall (BytesInv B (numRequests cfg / threads cfg))
    (map (workerStats cfg sch
            (int_quot (numRequests cfg) (threads cfg))) ids).
Proof.
  intros HB H0B Hmax. destruct requestsPerThread_exact as (-> & H0 & Hle).
  induction ids as [|i ids IH]; simpl; constructor; [|done].
  apply makeRequests_BytesInv; [apply HB|done|done|nia].
Qed.

Hypothesis schedule_valid : valid_schedule cfg sch.

Lemma arrival_length : Z.of_nat (length (arrival sch)) = threads cfg.
Proof.
  unfold valid_schedule in schedule_valid.
  rewrite schedule_valid, length_seq. lia.
Qed.

Lemma merged_CountInv :
  CountInv (threads cfg * (numRequests cfg / threads cfg)) (merged cfg sch).
Proof.
  destruct requestsPerThread_exact as (_ & H0 & Hle).
  pose proof (aggregate_CountInv _ _ (workers_CountInv (arrival sch))) as H.
  rewrite length_map, arrival_length in H.
  rewrite Z.mul_comm. apply H. lia.
Qed.

Lemma merged_BytesInv B :
  (forall i, messages_within B (envOf sch i)) ->
  0 <= B -> B * numRequests cfg <= max_int ->
  BytesInv B (threads cfg * (numRequests cfg / threads cfg))
    (merged cfg sch).
Proof.
  intros HB H0B Hmax. destruct requestsPerThread_exact as (_ & H0 & Hle).
  pose proof (aggregate_BytesInv B _ _
                (workers_BytesInv B (arrival sch) HB H0B Hmax)) as H.
  rewrite length_map, arrival_length in H.
  rewrite Z.mul_comm. apply H. nia.
Qed.

End Run.

(** ** The requesters: exhaustion and the final attempt *)

(** C4. Against a target that fails on every attempt, a requester makes
    exactly ten HTTP calls, sleeps 20, 40, 80, ..., 2560 ms and then 5000 ms
    (the doubled delay never exceeds five seconds), and returns the error
    "exponential backoff exceeded" with a nil response, zero latency and
    zero byte counts.  For POST this is so whenever the comment can be
    serialized. *)
Theorem backoff_exhausted_after_ten_attempts
  (env : Env) (u : string) (c : Comment) (js : string) (w : World) :
  always_fails env ->
  let exhausted := mkResult None 0 0 0 (Some errBackoffExceeded) in
  let w' :=
    mkWorld (calls w + 10) (draws w) (ticks w + 20)
      (slept w ++ map (fun ms => ms * Millisecond)
                      [20; 40; 80; 160; 320; 640; 1280; 2560; 5000; 5000]) in
  exponentialBackoffGET env u w = (exhausted, w') /\
  (marshal env c = inl js ->
   exponentialBackoffPOST env u c w = (exhausted, w')).
Proof.
  intros Hdown exhausted w'. split; [|intros Hm].
  - unfold exponentialBackoffGET.
    rewrite backoffLoopGET_exhausted by (intros; apply Hdown).
    reflexivity.
  - unfold exponentialBackoffPOST.
    rewrite (backoffLoopPOST_exhausted env u c js)
      by (done || intros; apply Hdown).
    reflexivity.
Qed.

Lemma backoff_exhausted_after_ten_attempts_witness :
  exponentialBackoffGET envDown "http://h/comments" initWorld
  = (mkResult None 0 0 0 (Some errBackoffExceeded),
     mkWorld 10 0 20
       [20000000; 40000000; 80000000; 160000000; 320000000; 640000000;
        1280000000; 2560000000; 5000000000; 5000000000]).
Proof.
  assert (always_fails envDown) as Hdown
    by (intros n r; eexists; reflexivity).
  destruct (backoff_exhausted_after_ten_attempts envDown "http://h/comments"
              sampleComment "{}" initWorld Hdown) as [HG _].
  rewrite HG. reflexivity.
Defined.

(** C6. When the first [k - 1] attempts fail and the [k]-th is answered,
    [k <= 10], a requester makes exactly [k] HTTP calls and the latency it
    returns is the time of the [k]-th attempt alone: the clock reading
    right after that attempt minus the reading right before it. *)
Theorem backoff_latency_of_final_attempt
  (env : Env) (u : string) (c : Comment) (js : string) (w : World)
  (k : nat) (rsp : Response) :
  (1 <= k <= 10)%nat ->
  ((forall j, (j < k - 1)%nat ->
      exists e, net env (calls w + j) (getRequest u) = inr e) ->
   net env (calls w + (k - 1)) (getRequest u) = inl rsp ->
   exponentialBackoffGET env u w
   = (mkResult (Some rsp) (attemptLatency env w k) 0
        (io_Copy_Discard (Body rsp)) None,
      after w k (k - 1) (20 * Millisecond))) /\
  (marshal env c = inl js ->
   (forall j, (j < k - 1)%nat ->
      exists e, net env (calls w + j) (postRequest u js) = inr e) ->
   net env (calls w + (k - 1)) (postRequest u js) = inl rsp ->
   exponentialBackoffPOST env u c w
   = (mkResult (Some rsp) (attemptLatency env w k)
        (Z.of_nat (String.length js)) (io_Copy_Discard (Body rsp)) None,
      after w k (k - 1) (20 * Millisecond))).
Proof.
  intros Hk. destruct k as [|f]; [lia|].
  replace (S f - 1)%nat with f by lia.
  split.
  - intros Hfail Hok. unfold exponentialBackoffGET.
    apply backoffLoopGET_succeeds; [lia|done|done].
  - intros Hm Hfail Hok. unfold exponentialBackoffPOST.
    apply backoffLoopPOST_succeeds; [done|lia|done|done].
Qed.

Lemma backoff_latency_of_final_attempt_witness :
  exponentialBackoffGET envFlaky "http://h/comments" initWorld
  = (mkResult (Some (mkResponse 200 "[]")) (25 - 16) 0 2 None,
     mkWorld 3 0 6 [20000000; 40000000]).
Proof.
  assert (1 <= 3 <= 10)%nat as Hk by lia.
  destruct (backoff_latency_of_final_attempt envFlaky "http://h/comments"
              sampleComment "{}" initWorld 3 (mkResponse 200 "[]") Hk)
    as [HG _].
  rewrite HG.
  - reflexivity.
  - intros j Hj. destruct j as [|[|j]]; [by eexists..|simpl in Hj; lia].
  - reflexivity.
Defined.

(** *** An iteration, by its requester *)

Section IterationByRequester.

Variable env : Env.
Variable base : string.

Lemma iteration_GET (s : Stats) (w : World) :
  coinOf env w = 0 ->
  iteration env base s w
  = (match err (fst (exponentialBackoffGET env (getURL env base w) (atGET w)))
     with
     | Some _ => recordError s
     | None =>
       recordGET s
         (bytesSent
            (fst (exponentialBackoffGET env (getURL env base w) (atGET w))))
         (bytesRecv
            (fst (exponentialBackoffGET env (getURL env base w) (atGET w))))
         (latency
            (fst (exponentialBackoffGET env (getURL env base w) (atGET w))))
     end,
     snd (exponentialBackoffGET env (getURL env base w) (atGET w))).
Proof.
  intros Hcoin.
  unfold getURL, atGET, queryKeyOf, queryValueOf, coinOf in *.
  unfold iteration, bind.
  pose proof (randomString_world env 10 w) as H1.
  destruct (randomString env 10 w) as [queryKey w1]. simpl in H1. subst w1.
  match goal with
  | |- context [randomString env 10 ?w1] =>
      pose proof (randomString_world env 10 w1) as H2;
      destruct (randomString env 10 w1) as [queryValue w2]
  end.
  simpl in H2. subst w2. unfold rand_Intn. cbn [calls draws ticks slept fst].
  replace (draws w + 10 + 10)%nat with (draws w + 20)%nat by lia.
  rewrite Hcoin. cbn [Z.eqb].
  replace (S (draws w + 20)) with (draws w + 21)%nat by lia.
  destruct (exponentialBackoffGET env _ _) as [r w'].
  cbn [fst snd]. unfold ret. by destruct (err r).
Qed.

Lemma iteration_POST (s : Stats) (w : World) :
  coinOf env w <> 0 ->
  iteration env base s w
  = (match err (fst (exponentialBackoffPOST env (postURL env base w)
                       (commentOf env w) (atPOST w)))
     with
     | Some _ => recordError s
     | None =>
       recordPOST s
         (bytesSent
            (fst (exponentialBackoffPOST env (postURL env base w)
                    (commentOf env w) (atPOST w))))
         (bytesRecv
            (fst (exponentialBackoffPOST env (postURL env base w)
                    (commentOf env w) (atPOST w))))
         (latency
            (fst (exponentialBackoffPOST env (postURL env base w)
                    (commentOf env w) (atPOST w))))
     end,
     snd (exponentialBackoffPOST env (postURL env base w)
            (commentOf env w) (atPOST w))).
Proof.
  intros Hcoin.
  unfold postURL, atPOST, commentOf, messageOf, queryKeyOf, queryValueOf,
    coinOf in *.
  unfold iteration, bind.
  pose proof (randomString_world env 10 w) as H1.
  destruct (randomString env 10 w) as [queryKey w1]. simpl in H1. subst w1.
  match goal with
  | |- context [randomString env 10 ?w1] =>
      pose proof (randomString_world env 10 w1) as H2;
      destruct (randomString env 10 w1) as [queryValue w2]
  end.
  simpl in H2. subst w2. unfold rand_Intn. cbn [calls draws ticks slept fst].
  replace (draws w + 10 + 10)%nat with (draws w + 20)%nat by lia.
  destruct (Z.eqb_spec (rnd env (draws w + 20) mod 2) 0) as [|_]; [done|].
  replace (S (draws w + 20)) with (draws w + 21)%nat by lia.
  pose proof (randomString_world env 30
                (mkWorld (calls w) (draws w + 21) (ticks w) (slept w))) as H3.
  destruct (randomString env 30 _) as [comment w4]. simpl in H3. subst w4.
  unfold time_Now. cbn [calls draws ticks slept fst].
  replace (draws w + 21 + 30)%nat with (draws w + 51)%nat by lia.
  destruct (exponentialBackoffPOST env _ _ _) as [r w'].
  cbn [fst snd]. unfold ret. by destruct (err r).
Qed.

End IterationByRequester.

Section FailedIterations.

Variable env : Env.
Variable base : string.

Lemma iteration_fails (s : Stats) (w : World) :
  requestFails env base w ->
  fst (iteration env base s w) = recordError s.
Proof.
  intros [[Hcoin Hfail]|[Hcoin [[e Hm]|(text & Hm & Hfail)]]].
  - rewrite iteration_GET by done. unfold exponentialBackoffGET.
    by rewrite backoffLoopGET_exhausted.
  - rewrite iteration_POST by done. unfold exponentialBackoffPOST.
    by rewrite (backoffLoopPOST_marshal_error env _ _ _ _ _ e Hm).
  - rewrite iteration_POST by done. unfold exponentialBackoffPOST.
    by rewrite (backoffLoopPOST_exhausted env _ _ text).
Qed.

Lemma requestLoop_after_failure (m : nat) (s : Stats) (w : World) :
  requestFails env base w ->
  requestLoop env base (S m) s w
  = requestLoop env base m (recordError s) (snd (iteration env base s w)).
Proof.
  intros Hfail. by rewrite requestLoop_S, iteration_fails.
Qed.

Hypothesis down : always_fails env.

Lemma always_fails_requestFails (w : World) : requestFails env base w.
Proof.
  destruct (Z.eq_dec (coinOf env w) 0) as [Hcoin|Hcoin].
  - left. split; [done|]. intros j _. apply down.
  - right. split; [done|].
    destruct (marshal env (commentOf env w)) as [text|e] eqn:Em.
    + right. exists text. split; [done|]. intros j _. apply down.
    + left. by exists e.
Qed.

Hypothesis serializable : forall c, exists text, marshal env c = inl text.

Lemma iteration_down_world (s : Stats) (w : World) :
  calls (snd (iteration env base s w)) = (calls w + 10)%nat /\
  slept (snd (iteration env base s w))
  = slept w ++ delays 10 (20 * Millisecond).
Proof.
  destruct (Z.eq_dec (coinOf env w) 0) as [Hcoin|Hcoin].
  - rewrite iteration_GET by done. unfold exponentialBackoffGET.
    rewrite backoffLoopGET_exhausted by (intros; apply down). done.
  - rewrite iteration_POST by done. unfold exponentialBackoffPOST.
    destruct (serializable (commentOf env w)) as [text Hm].
    rewrite (backoffLoopPOST_exhausted env _ _ text)
      by (done || intros; apply down).
    done.
Qed.

Lemma requestLoop_down_world (n : nat) : forall s w,
  calls (snd (requestLoop env base n s w)) = (calls w + 10 * n)%nat /\
  length (slept (snd (requestLoop env base n s w)))
  = (length (slept w) + 10 * n)%nat.
Proof.
  induction n as [|n IH]; intros s w.
  - cbn [requestLoop]. unfold ret. cbn [snd]. lia.
  - rewrite requestLoop_S.
    destruct (IH (fst (iteration env base s w))
                 (snd (iteration env base s w))) as [Hc Hs].
    destruct (iteration_down_world s w) as [Hc1 Hs1].
    rewrite Hc, Hs, Hc1, Hs1, length_app, delays_length. lia.
Qed.

End FailedIterations.

(** ** The worker: failures and status codes *)

(** C7. A worker runs all of its [n] iterations whatever fails.  The three
    counters of the record it publishes add up to [n].  An iteration whose
    request fails, by exhausted backoff or by a comment that does not
    serialize, adds one to the error counter and the loop goes on with the
    iterations that are left, from the world the failed iteration left.
    When every request fails, the one record has [n] errors, no success, no
    bytes and no latency, and, the comments being serializable, every one
    of the [n] iterations has made its ten HTTP calls and slept its ten
    delays. *)
Theorem worker_never_aborts_early
  (env : Env) (base : string) (n : Z) (w : World) :
  0 <= n <= max_int ->
  iterationsCounted (fst (makeRequests env base n w)) = n /\
  (forall (s : Stats) (w0 : World) (m : nat),
     requestFails env base w0 ->
     fst (iteration env base s w0) = recordError s /\
     requestLoop env base (S m) s w0
     = requestLoop env base m (recordError s)
         (snd (iteration env base s w0))) /\
  (always_fails env ->
   fst (makeRequests env base n w) = mkStats 0 0 0 0 n [] /\
   ((forall c, exists text, marshal env c = inl text) ->
    calls (snd (makeRequests env base n w))
      = (calls w + 10 * Z.to_nat n)%nat /\
    length (slept (snd (makeRequests env base n w)))
      = (length (slept w) + 10 * Z.to_nat n)%nat)).
Proof.
  intros Hn. split; [|split].
  - by destruct (makeRequests_CountInv env base n w Hn) as (_ & _ & _ & H & _).
  - intros s w0 m Hfail. split.
    + by apply iteration_fails.
    + by apply requestLoop_after_failure.
  - intros Hdown. split.
    + by apply makeRequests_always_fails.
    + intros Hser. unfold makeRequests.
      by apply requestLoop_down_world.
Qed.

Lemma worker_never_aborts_early_witness :
  iterationsCounted (fst (makeRequests envDown "http://h" 3 initWorld)) = 3 /\
  fst (makeRequests envDown "http://h" 3 initWorld) = mkStats 0 0 0 0 3 [] /\
  calls (snd (makeRequests envDown "http://h" 3 initWorld)) = 30%nat /\
  length (slept (snd (makeRequests envDown "http://h" 3 initWorld)))
    = 30%nat.
Proof.
  assert (0 <= 3 <= max_int) as Hn by (unfold max_int; lia).
  destruct (worker_never_aborts_early envDown "http://h" 3 initWorld Hn)
    as (H1 & _ & H2).
  split; [exact H1|].
  destruct H2 as [H2 H3]; [intros n r; eexists; reflexivity|].
  split; [exact H2|].
  apply H3. intros c. eexists. reflexivity.
Defined.

(** C2, as the code has it.  Only a transport error makes a requester try
    again.  When the first [failed] attempts of the request of an
    iteration meet a transport error and the next one is answered, the
    response ends the call whatever its status code: the iteration has
    made [failed + 1] HTTP calls and slept [failed] delays, and the worker
    counts the request as a successful GET or POST, adds the latency of
    that last attempt to the latencies, the size of the drained body to the
    bytes received and, for a POST, the size of the serialized comment to
    the bytes sent. *)
Theorem response_without_transport_error_is_counted
  (env : Env) (base : string) (s : Stats) (w : World) (failed : nat)
  (rsp : Response) :
  (failed < 10)%nat ->
  (coinOf env w = 0 ->
   (forall j, (j < failed)%nat ->
      exists e,
        net env (calls w + j) (getRequest (getURL env base w)) = inr e) ->
   net env (calls w + failed) (getRequest (getURL env base w)) = inl rsp ->
   iteration env base s w
   = (recordGET s 0 (io_Copy_Discard (Body rsp))
        (attemptLatency env (atGET w) (S failed)),
      after (atGET w) (S failed) failed (20 * Millisecond))) /\
  (coinOf env w <> 0 ->
   forall text,
     marshal env (commentOf env w) = inl text ->
     (forall j, (j < failed)%nat ->
        exists e,
          net env (calls w + j) (postRequest (postURL env base w) text)
          = inr e) ->
     net env (calls w + failed) (postRequest (postURL env base w) text)
       = inl rsp ->
     iteration env base s w
     = (recordPOST s (Z.of_nat (String.length text))
          (io_Copy_Discard (Body rsp))
          (attemptLatency env (atPOST w) (S failed)),
        after (atPOST w) (S failed) failed (20 * Millisecond))).
Proof.
  intros Hf. split.
  - intros Hcoin Hfail Hok. rewrite iteration_GET by done.
    unfold exponentialBackoffGET.
    by rewrite (backoffLoopGET_succeeds env _ failed 10 _ _ rsp).
  - intros Hcoin text Hm Hfail Hok. rewrite iteration_POST by done.
    unfold exponentialBackoffPOST.
    by rewrite (backoffLoopPOST_succeeds env _ _ text failed 10 _ _ rsp).
Qed.

Lemma response_without_transport_error_is_counted_witness :
  iteration envFlaky500 "http://h" zeroStats initWorld
  = (mkStats 1 0 0 4 0 [25 - 16],
     mkWorld 3 21 6 [20000000; 40000000]).
Proof.
  assert (2 < 10)%nat as Hf by lia.
  destruct (response_without_transport_error_is_counted envFlaky500
              "http://h" zeroStats initWorld 2 (mkResponse 500 "oops") Hf)
    as [HG _].
  rewrite HG.
  - reflexivity.
  - reflexivity.
  - intros j Hj. destruct j as [|[|j]]; [by eexists..|lia].
  - reflexivity.
Defined.

(** C2, as the claim states it, fails: the target answers the single
    request of the run with status 500, which is not a success status; the
    requester makes one HTTP call and does not sleep, and the worker's
    record shows one successful GET, four bytes received and one latency
    sample. *)
Lemma status_500_is_counted_as_success :
  success_status 500 = false /\
  net env500 0 (getRequest "http://h/comments?aaaaaaaaaa=aaaaaaaaaa")
    = inl (mkResponse 500 "oops") /\
  makeRequests env500 "http://h" 1 initWorld
    = (mkStats 1 0 0 4 0 [1000], mkWorld 1 21 2 []).
Proof. repeat split; vm_compute; reflexivity. Qed.

(** ** Percentiles *)

Section Percentiles.

Lemma percentileIndex_exact (n p : Z) :
  0 <= n -> 0 <= p -> n * p <= max_int ->
  percentileIndex n p = n * p / 100.
Proof.
  intros Hn Hp Hmax. unfold percentileIndex, int_quot, int_mul.
  rewrite (wrap64_id (n * p))
    by (unfold in_int, min_int, max_int in *; nia).
  rewrite Z.quot_div_nonneg by nia.
  apply wrap64_id.
  pose proof (Z.div_pos (n * p) 100).
  pose proof (Z.div_le_upper_bound (n * p) 100 (n * p)).
  unfold in_int, min_int, max_int in *. nia.
Qed.

Lemma percentileIndex_in_range (n p : Z) :
  0 < n -> 0 <= p < 100 -> n * 100 <= max_int ->
  0 <= n * p / 100 < n.
Proof.
  intros Hn Hp Hmax. split.
  - apply Z.div_pos; nia.
  - apply Z.div_lt_upper_bound; nia.
Qed.

Lemma index_Done (slice : list Duration) (i : Z) (v : Duration) :
  0 <= i -> slice !! Z.to_nat i = Some v -> index slice i = Done v.
Proof.
  intros Hi Hv. unfold index.
  destruct (Z.ltb_spec i 0); [lia|]. by rewrite Hv.
Qed.

Lemma index_nil (i : Z) : index [] i = Panic "index out of range".
Proof. unfold index. by destruct (i <? 0). Qed.

(** The loop fills the map with the nearest-rank elements and leaves the
    other keys alone. *)
Lemma percentileLoop_Done (slice : list Duration) (ps : list Z) :
  forall m,
  slice <> [] -> Z.of_nat (length slice) * 100 <= max_int ->
  Forall (fun p => 0 <= p < 100) ps ->
  exists table,
    percentileLoop slice ps m = Done table /\
    forall p,
      (p ∈ ps ->
       is_Some (table !! p) /\
       table !! p
         = slice !! Z.to_nat (Z.of_nat (length slice) * p / 100)) /\
      (p ∉ ps -> table !! p = m !! p).
Proof.
  intros m Hne Hmax Hps. revert m.
  assert (0 < Z.of_nat (length slice)) as Hlen
    by (destruct slice; [done|simpl; lia]).
  induction Hps as [|p ps Hp _ IH]; intros m.
  - exists m. split; [done|]. intros p. split; [|done].
    intros H. by apply elem_of_nil in H.
  - cbn [percentileLoop].
    rewrite percentileIndex_exact by nia.
    destruct (percentileIndex_in_range _ p Hlen Hp Hmax) as [Hlo Hhi].
    destruct (lookup_lt_is_Some_2 slice
                (Z.to_nat (Z.of_nat (length slice) * p / 100)))
      as [v Hv]; [lia|].
    rewrite (index_Done _ _ v) by done.
    destruct (IH (<[p:=v]> m)) as (table & Htable & Hspec).
    exists table. split; [done|]. intros q. split.
    + intros Hq. destruct (decide (q ∈ ps)) as [Hin|Hnin].
      * by apply Hspec.
      * apply elem_of_cons in Hq as [->|?]; [|done].
        rewrite (proj2 (Hspec p) Hnin), lookup_insert_eq, Hv. by split.
    + intros Hq. apply not_elem_of_cons in Hq as [Hne' Hnin].
      rewrite (proj2 (Hspec q) Hnin). by rewrite lookup_insert_ne.
Qed.

Lemma percentiles_in_range : Forall (fun p => 0 <= p < 100) percentiles.
Proof. unfold percentiles. repeat constructor; lia. Qed.

Lemma percentileTable_nil : percentileTable [] = Panic "index out of range".
Proof. reflexivity. Qed.

End Percentiles.

(** C5. For a combined latency sequence of length [n > 0] and each of the
    reported percentiles [p], the table holds at [p] the element at
    zero-based index [n * p / 100] (rounded down, no interpolation) of the
    sequence sorted ascending.  For 10, 20, 30, 40, 50 ms the 50th
    percentile is the element at index 2, 30 ms, and the 90th the element
    at index 4, 50 ms. *)
Theorem percentile_is_nearest_rank :
  (forall (latencies : list Duration) (p : Z),
     latencies <> [] ->
     Z.of_nat (length latencies) * 100 <= max_int ->
     p ∈ percentiles ->
     exists table v,
       percentileTable latencies = Done table /\
       table !! p = Some v /\
       sortDurationSlice latencies
         !! Z.to_nat (Z.of_nat (length latencies) * p / 100) = Some v /\
       Sorted Z.le (sortDurationSlice latencies) /\
       sortDurationSlice latencies ≡ₚ latencies) /\
  (let ms := map (fun x => x * Millisecond) in
   exists table,
     percentileTable (ms [10; 20; 30; 40; 50]) = Done table /\
     table !! 50 = Some (30 * Millisecond) /\
     table !! 90 = Some (50 * Millisecond) /\
     sortDurationSlice (ms [10; 20; 30; 40; 50]) !! 2%nat
       = Some (30 * Millisecond) /\
     sortDurationSlice (ms [10; 20; 30; 40; 50]) !! 4%nat
       = Some (50 * Millisecond)).
Proof.
  split.
  - intros latencies p Hne Hmax Hp. unfold percentileTable.
    assert (sortDurationSlice latencies <> []) as Hne'.
    { intros E. apply Hne. apply Permutation_nil_r.
      rewrite <- E. symmetry. apply sortDurationSlice_perm. }
    destruct (percentileLoop_Done (sortDurationSlice latencies) percentiles ∅
                Hne') as (table & Htable & Hspec).
    + by rewrite sortDurationSlice_length.
    + apply percentiles_in_range.
    + destruct (proj1 (Hspec p) Hp) as [[v Hv] Heq].
      rewrite sortDurationSlice_length in Heq.
      exists table, v. repeat split; try done.
      * by rewrite <- Heq.
      * apply sortDurationSlice_Sorted.
      * apply sortDurationSlice_perm.
  - eexists. repeat split; vm_compute; reflexivity.
Qed.

Lemma percentile_is_nearest_rank_witness :
  exists table v,
    percentileTable [30; 10; 20] = Done table /\
    table !! 50 = Some v /\
    sortDurationSlice [30; 10; 20]
      !! Z.to_nat (Z.of_nat (length [30; 10; 20]) * 50 / 100) = Some v /\
    Sorted Z.le (sortDurationSlice [30; 10; 20]) /\
    sortDurationSlice [30; 10; 20] ≡ₚ [30; 10; 20].
Proof.
  apply (proj1 percentile_is_nearest_rank [30; 10; 20] 50).
  - discriminate.
  - unfold max_int. simpl. lia.
  - unfold percentiles. apply elem_of_cons. by left.
Defined.


(** ** The driver *)

Section Report.

Context {float64 : Type}.
Variable float64_of_int : Z -> float64.
Variable Duration_Seconds : Duration -> float64.
Variable float64_div : float64 -> float64 -> float64.

Lemma main_unfold (cfg : Config) (sch : Schedule) :
  0 < threads cfg ->
  main float64_of_int Duration_Seconds float64_div cfg sch
  = match percentileTable (Latencies (merged cfg sch)) with
    | Panic msg => Panic msg
    | Done table =>
      Done (mkSummary (mainClock sch 1%nat - mainClock sch 0%nat)
              (TotalBytesSent (merged cfg sch))
              (TotalBytesRecv (merged cfg sch))
              (SuccessfulGET (merged cfg sch))
              (SuccessfulPOST (merged cfg sch))
              (Errors (merged cfg sch)) table
              (float64_div (float64_of_int (numRequests cfg))
                 (Duration_Seconds
                    (mainClock sch 1%nat - mainClock sch 0%nat))))
    end.
Proof.
  intros Ht. unfold main, merged.
  destruct (Z.ltb_spec (threads cfg) 0); [lia|].
  destruct (Z.eqb_spec (threads cfg) 0); [lia|]. reflexivity.
Qed.

Lemma main_panics_on_empty (cfg : Config) (sch : Schedule) :
  0 < threads cfg -> Latencies (merged cfg sch) = [] ->
  main float64_of_int Duration_Seconds float64_div cfg sch
  = Panic "index out of range".
Proof.
  intros Ht He. by rewrite main_unfold, He, percentileTable_nil.
Qed.

(** The report does not depend on the order in which the records arrive. *)
Lemma main_order_insensitive (cfg : Config) (envs : nat -> Env)
  (clock : nat -> Z) (arrival1 arrival2 : list nat) :
  arrival1 ≡ₚ arrival2 ->
  main float64_of_int Duration_Seconds float64_div cfg
    (mkSchedule envs arrival1 clock)
  = main float64_of_int Duration_Seconds float64_div cfg
      (mkSchedule envs arrival2 clock).
Proof.
  intros Hperm. unfold main. cbn [arrival mainClock].
  destruct (threads cfg <? 0); [done|]. destruct (threads cfg =? 0); [done|].
  set (rpt := int_quot (numRequests cfg) (threads cfg)).
  change (workerStats cfg (mkSchedule envs arrival2 clock) rpt)
    with (workerStats cfg (mkSchedule envs arrival1 clock) rpt).
  set (f := workerStats cfg (mkSchedule envs arrival1 clock) rpt).
  assert (map f arrival1 ≡ₚ map f arrival2) as Hl
    by (by apply Permutation_map).
  assert (forall g, additive g -> g zeroStats = 0 ->
            g (aggregate (map f arrival1)) = g (aggregate (map f arrival2)))
    as Hfield.
  { intros g Hg H0. rewrite !aggregate_field by done.
    by rewrite (sumOf_perm g _ _ Hl). }
  assert (percentileTable (Latencies (aggregate (map f arrival1)))
          = percentileTable (Latencies (aggregate (map f arrival2)))) as Ht.
  { unfold percentileTable. f_equal.
    apply sortDurationSlice_order_insensitive.
    rewrite !aggregate_Latencies. by apply concat_Latencies_perm. }
  rewrite Ht.
  rewrite (Hfield _ additive_SuccessfulGET), (Hfield _ additive_SuccessfulPOST),
    (Hfield _ additive_TotalBytesSent), (Hfield _ additive_TotalBytesRecv),
    (Hfield _ additive_Errors) by done.
  reflexivity.
Qed.

Lemma merged_no_latency (cfg : Config) (sch : Schedule) :
  (forall i, Latencies
               (workerStats cfg sch
                  (int_quot (numRequests cfg) (threads cfg)) i) = []) ->
  Latencies (merged cfg sch) = [].
Proof.
  intros H. unfold merged. rewrite aggregate_Latencies.
  induction (arrival sch) as [|i ids IH]; simpl; [done|].
  by rewrite H, IH.
Qed.

End Report.

(** C1. A run without a single successful request does not reach its
    report: the sorted latency slice is empty, index 0 is out of range and
    [main] panics.  This is so for five requests over ten workers (each
    worker gets zero iterations) whatever the target does, and for every
    run whose target is down. *)
Theorem main_panics_without_successful_request :
  (forall (float64 : Type) (float64_of_int : Z -> float64)
          (Duration_Seconds : Duration -> float64)
          (float64_div : float64 -> float64 -> float64)
          (base : string) (sch : Schedule),
     main float64_of_int Duration_Seconds float64_div (mkConfig base 5 10) sch
     = Panic "index out of range") /\
  (forall (float64 : Type) (float64_of_int : Z -> float64)
          (Duration_Seconds : Duration -> float64)
          (float64_div : float64 -> float64 -> float64)
          (cfg : Config) (sch : Schedule),
     0 <= numRequests cfg <= max_int -> 0 < threads cfg ->
     (forall i, always_fails (envOf sch i)) ->
     main float64_of_int Duration_Seconds float64_div cfg sch
     = Panic "index out of range").
Proof.
  split.
  - intros F of_int secs fdiv base sch.
    apply main_panics_on_empty; [simpl; lia|].
    apply merged_no_latency. intros i. reflexivity.
  - intros F of_int secs fdiv cfg sch Hn Ht Hdown.
    apply main_panics_on_empty; [done|].
    apply merged_no_latency. intros i.
    destruct (requestsPerThread_exact cfg Hn Ht) as (-> & H0 & Hle).
    unfold workerStats. rewrite makeRequests_always_fails; [done|done|nia].
Qed.

(** C3. With 100 configured requests, the merged counters of successes
    and errors add up to 100 for one worker and for four workers, and to
    74 for 37 workers: each worker runs 100 / 37 = 2 iterations and the
    remainder of the division is not run. *)
Theorem configured_total_100_over_37_workers_runs_74 :
  forall (base : string) (envs : nat -> Env) (clock : nat -> Z),
    let run := fun t =>
      merged (mkConfig base 100 t)
             (mkSchedule envs (seq 0 (Z.to_nat t)) clock) in
    iterationsCounted (run 1) = 100 /\
    iterationsCounted (run 4) = 100 /\
    iterationsCounted (run 37) = 74.
Proof.
  intros base envs clock run.
  assert (forall t, 0 < t ->
            iterationsCounted (run t) = t * (100 / t)) as H.
  { intros t Ht. unfold run.
    assert (0 <= 100 <= max_int) as Hn by (unfold max_int; lia).
    assert (valid_schedule (mkConfig base 100 t)
              (mkSchedule envs (seq 0 (Z.to_nat t)) clock)) as Hv
      by (unfold valid_schedule; reflexivity).
    by destruct (merged_CountInv (mkConfig base 100 t) _ Hn Ht Hv)
      as (_ & _ & _ & H & _). }
  rewrite !H by lia. by repeat split.
Qed.


(** C8. Aggregation does not depend on the order in which the workers'
    records arrive: two arrival orders of the same records give the same
    five totals, latency sequences that are rearrangements of each other,
    the same sorted slice and the same percentile table; and [main] gives
    the same outcome for two arrival orders of the same workers. *)
Theorem aggregation_is_order_insensitive :
  (forall received1 received2 : list Stats,
     received1 ≡ₚ received2 ->
     SuccessfulGET (aggregate received1) = SuccessfulGET (aggregate received2) /\
     SuccessfulPOST (aggregate received1)
       = SuccessfulPOST (aggregate received2) /\
     TotalBytesSent (aggregate received1)
       = TotalBytesSent (aggregate received2) /\
     TotalBytesRecv (aggregate received1)
       = TotalBytesRecv (aggregate received2) /\
     Errors (aggregate received1) = Errors (aggregate received2) /\
     Latencies (aggregate received1) ≡ₚ Latencies (aggregate received2) /\
     sortDurationSlice (Latencies (aggregate received1))
       = sortDurationSlice (Latencies (aggregate received2)) /\
     percentileTable (Latencies (aggregate received1))
       = percentileTable (Latencies (aggregate received2))) /\
  (forall (float64 : Type) (float64_of_int : Z -> float64)
          (Duration_Seconds : Duration -> float64)
          (float64_div : float64 -> float64 -> float64)
          (cfg : Config) (envs : nat -> Env) (clock : nat -> Z)
          (arrival1 arrival2 : list nat),
     arrival1 ≡ₚ arrival2 ->
     main float64_of_int Duration_Seconds float64_div cfg
       (mkSchedule envs arrival1 clock)
     = main float64_of_int Duration_Seconds float64_div cfg
         (mkSchedule envs arrival2 clock)).
Proof.
  split.
  - intros l1 l2 Hperm.
    assert (Latencies (aggregate l1) ≡ₚ Latencies (aggregate l2)) as Hlat
      by (rewrite !aggregate_Latencies; by apply concat_Latencies_perm).
    pose proof (sortDurationSlice_order_insensitive _ _ Hlat) as Hsort.
    rewrite !(aggregate_field SuccessfulGET), !(aggregate_field SuccessfulPOST),
      !(aggregate_field TotalBytesSent), !(aggregate_field TotalBytesRecv),
      !(aggregate_field Errors)
      by (done || apply additive_SuccessfulGET || apply additive_SuccessfulPOST
          || apply additive_TotalBytesSent || apply additive_TotalBytesRecv
          || apply additive_Errors).
    rewrite !(sumOf_perm _ _ _ Hperm).
    repeat split; try done.
    unfold percentileTable. by rewrite Hsort.
  - intros. by apply main_order_insensitive.
Qed.

Lemma aggregation_is_order_insensitive_witness :
  main fracOfInt fracSeconds fracDiv sampleConfig
    (mkSchedule (envOf sampleSchedule) [1%nat; 0%nat] (mainClock sampleSchedule))
  = main fracOfInt fracSeconds fracDiv sampleConfig
      (mkSchedule (envOf sampleSchedule) [0%nat; 1%nat]
         (mainClock sampleSchedule)).
Proof.
  apply (proj2 aggregation_is_order_insensitive).
  apply Permutation_swap.
Defined.



(** ** The invariant of a record *)

Lemma StatsInv_of_invariants (B i : Z) (s : Stats) :
  CountInv i s -> BytesInv B i s -> StatsInv s.
Proof.
  unfold CountInv, BytesInv, StatsInv.
  intros (? & ? & ? & _ & ?) ((? & _) & (? & _)). by repeat split.
Qed.

Lemma mergeStats_StatsInv (acc s : Stats) :
  StatsInv acc -> StatsInv s ->
  SuccessfulGET acc + SuccessfulGET s <= max_int ->
  SuccessfulPOST acc + SuccessfulPOST s <= max_int ->
  TotalBytesSent acc + TotalBytesSent s <= max_int ->
  TotalBytesRecv acc + TotalBytesRecv s <= max_int ->
  Errors acc + Errors s <= max_int ->
  StatsInv (mergeStats acc s).
Proof.
  unfold StatsInv.
  intros (Hl & ? & ? & ? & ? & ?) (Hl' & ? & ? & ? & ? & ?) ? ? ? ? ?.
  simpl. rewrite length_app.
  rewrite !int_add_exact by (unfold in_int, min_int, max_int in *; lia).
  repeat split; lia.
Qed.

(** C10. When the configuration is in range and the byte volume of the
    run fits in 64 bits (no message is larger than [B] bytes and
    [B * numRequests] does not exceed the largest [int64]), every record a
    worker publishes has as many latency samples as successful requests and
    no negative counter or byte total; merging two such records whose sums
    stay in range gives such a record; and so the merged record of the run
    is one too. *)
Theorem published_stats_invariant (cfg : Config) (sch : Schedule) (B : Z) :
  0 <= numRequests cfg <= max_int ->
  0 < threads cfg ->
  valid_schedule cfg sch ->
  0 <= B -> B * numRequests cfg <= max_int ->
  (forall i, messages_within B (envOf sch i)) ->
  (forall i,
     StatsInv
       (workerStats cfg sch (int_quot (numRequests cfg) (threads cfg)) i)) /\
  (forall acc s,
     StatsInv acc -> StatsInv s ->
     SuccessfulGET acc + SuccessfulGET s <= max_int ->
     SuccessfulPOST acc + SuccessfulPOST s <= max_int ->
     TotalBytesSent acc + TotalBytesSent s <= max_int ->
     TotalBytesRecv acc + TotalBytesRecv s <= max_int ->
     Errors acc + Errors s <= max_int ->
     StatsInv (mergeStats acc s)) /\
  StatsInv (merged cfg sch).
Proof.
  intros Hn Ht Hv HB Hmax Hsize. split; [|split].
  - intros i.
    pose proof (workers_CountInv cfg sch Hn Ht [i]) as Hc.
    pose proof (workers_BytesInv cfg sch Hn Ht B [i] Hsize HB Hmax) as Hb.
    apply Forall_inv in Hc. apply Forall_inv in Hb.
    by apply (StatsInv_of_invariants B _ _ Hc Hb).
  - apply mergeStats_StatsInv.
  - apply (StatsInv_of_invariants B _ _ (merged_CountInv cfg sch Hn Ht Hv)
             (merged_BytesInv cfg sch Hn Ht Hv B Hsize HB Hmax)).
Qed.

Lemma published_stats_invariant_witness :
  StatsInv (workerStats sampleConfig sampleSchedule
              (int_quot (numRequests sampleConfig) (threads sampleConfig))
              0%nat) /\
  StatsInv (merged sampleConfig sampleSchedule).
Proof.
  assert (0 <= numRequests sampleConfig <= max_int) as Hn
    by (unfold max_int; simpl; lia).
  assert (0 < threads sampleConfig) as Ht by (simpl; lia).
  assert (valid_schedule sampleConfig sampleSchedule) as Hv
    by (unfold valid_schedule; simpl; apply Permutation_swap).
  assert (0 <= 100) as HB by lia.
  assert (100 * numRequests sampleConfig <= max_int) as Hmax
    by (unfold max_int; simpl; lia).
  assert (forall i, messages_within 100 (envOf sampleSchedule i)) as Hsize.
  { intros i. unfold messages_within, message_sizes. simpl.
    destruct (Nat.even i); simpl; split.
    - intros n r rsp H. destruct (method r); inversion H; simpl; lia.
    - intros c js H. inversion H. simpl. lia.
    - intros n r rsp H. destruct (n <? 2)%nat; inversion H; simpl; lia.
    - intros c js H. inversion H. simpl. lia. }
  destruct (published_stats_invariant sampleConfig sampleSchedule 100
              Hn Ht Hv HB Hmax Hsize) as (Hw & _ & Hm).
  split; [apply Hw|exact Hm].
Defined.

(** ** The exact totals of a run *)

(** The merged counters are the exact sums of the counters of the records
    received, and the successes and errors of a run add up to the
    iterations its workers ran, when the configuration is in range. *)
Theorem merged_counters_are_exact_sums (cfg : Config) (sch : Schedule) :
  0 <= numRequests cfg <= max_int ->
  0 < threads cfg ->
  valid_schedule cfg sch ->
  let received :=
    map (workerStats cfg sch (int_quot (numRequests cfg) (threads cfg)))
        (arrival sch) in
  SuccessfulGET (merged cfg sch) = sumOf SuccessfulGET received /\
  SuccessfulPOST (merged cfg sch) = sumOf SuccessfulPOST received /\
  Errors (merged cfg sch) = sumOf Errors received /\
  Latencies (merged cfg sch) = concat (map Latencies received) /\
  iterationsCounted (merged cfg sch)
    = threads cfg * (numRequests cfg / threads cfg).
Proof.
  intros Hn Ht Hv received.
  destruct (requestsPerThread_exact cfg Hn Ht) as (_ & H0 & Hle).
  destruct (aggregate_CountInv _ _ (workers_CountInv cfg sch Hn Ht (arrival sch)))
    as (_ & Hg & Hp & He).
  { rewrite length_map, (arrival_length cfg sch Ht Hv). lia. }
  repeat split; try done.
  - apply aggregate_Latencies.
  - by destruct (merged_CountInv cfg sch Hn Ht Hv) as (_ & _ & _ & H & _).
Qed.

Lemma merged_counters_are_exact_sums_witness :
  SuccessfulGET (merged sampleConfig sampleSchedule) = 5 /\
  SuccessfulPOST (merged sampleConfig sampleSchedule) = 1 /\
  Errors (merged sampleConfig sampleSchedule) = 0 /\
  iterationsCounted (merged sampleConfig sampleSchedule) = 6.
Proof.
  assert (0 <= numRequests sampleConfig <= max_int) as Hn
    by (unfold max_int; simpl; lia).
  assert (0 < threads sampleConfig) as Ht by (simpl; lia).
  assert (valid_schedule sampleConfig sampleSchedule) as Hv
    by (unfold valid_schedule; simpl; apply Permutation_swap).
  destruct (merged_counters_are_exact_sums sampleConfig sampleSchedule
              Hn Ht Hv) as (Hg & Hp & He & _ & Hi).
  rewrite Hg, Hp, He, Hi. vm_compute. repeat split.
Defined.

(** * Further properties of the load generator *)

(** ** Random strings *)

Lemma charAt_alphanumeric (i : Z) :
  0 <= i < 62 -> alphanumeric (charAt i) = true.
Proof.
  intros Hi.
  assert (forallb (fun k => alphanumeric (charAt (Z.of_nat k))) (seq 0 62)
          = true) as H by (vm_compute; reflexivity).
  rewrite forallb_forall in H.
  rewrite <- (Z2Nat.id i) by lia. apply H.
  apply in_seq. lia.
Qed.

Lemma randomString_length (env : Env) (n : nat) : forall w,
  String.length (fst (randomString env n w)) = n.
Proof.
  induction n as [|n IH]; intros w; [done|].
  cbn [randomString]. unfold bind, rand_Intn, ret.
  match goal with
  | |- context [randomString env n ?w1] =>
      specialize (IH w1); destruct (randomString env n w1) as [rest w2]
  end.
  simpl in *. by rewrite IH.
Qed.

Lemma randomString_chars (env : Env) (n : nat) : forall w,
  Forall (fun c => alphanumeric c = true)
         (list_ascii_of_string (fst (randomString env n w))).
Proof.
  induction n as [|n IH]; intros w; [by constructor|].
  cbn [randomString]. unfold bind, rand_Intn, ret.
  match goal with
  | |- context [randomString env n ?w1] =>
      specialize (IH w1); destruct (randomString env n w1) as [rest w2]
  end.
  cbn [fst list_ascii_of_string] in *. constructor; [|done].
  apply charAt_alphanumeric. apply Z.mod_pos_bound. reflexivity.
Qed.

(** [randomString(n)] returns exactly [n] characters, each a digit or an
    unaccented letter, whatever the random source yields; it takes [n]
    random draws and touches neither the network nor the clock. *)
Theorem randomString_is_alphanumeric (env : Env) (n : nat) (w : World) :
  String.length (fst (randomString env n w)) = n /\
  Forall (fun c => alphanumeric c = true)
         (list_ascii_of_string (fst (randomString env n w))) /\
  snd (randomString env n w)
  = mkWorld (calls w) (draws w + n) (ticks w) (slept w).
Proof.
  split; [apply randomString_length|].
  split; [apply randomString_chars|apply randomString_world].
Qed.

(** ** The requesters, for any target *)

Lemma delays_bounds (f : nat) : forall b,
  20 * Millisecond <= b <= 5 * Second ->
  Forall (fun d => 20 * Millisecond <= d <= 5 * Second) (delays f b).
Proof.
  induction f as [|f IH]; intros b Hb; simpl; constructor; [done|].
  apply IH. rewrite nextBackoff_min.
  - unfold Second, Millisecond, Microsecond, Nanosecond in *. lia.
  - unfold Second, Millisecond, Microsecond, Nanosecond in *. lia.
Qed.

Lemma delays_total (f : nat) :
  (f <= 10)%nat ->
  totalDuration (delays f (20 * Millisecond)) <= 15100 * Millisecond.
Proof.
  intros Hf.
  do 11 (destruct f as [|f]; [vm_compute; discriminate|]). lia.
Qed.

Lemma after_0 (w : World) (b : Duration) : after w 0 0 b = w.
Proof.
  unfold after. simpl. rewrite app_nil_r. destruct w; simpl.
  f_equal; lia.
Qed.

Section RequesterCases.

Variable env : Env.

Lemma backoffLoopGET_cases u n : forall b w,
  exists f : nat,
    (f <= n)%nat /\
    (forall j, (j < f)%nat ->
       exists e, net env (calls w + j) (getRequest u) = inr e) /\
    ((f < n)%nat /\
     (exists rsp,
        net env (calls w + f) (getRequest u) = inl rsp /\
        backoffLoopGET env u n b w
        = (mkResult (Some rsp) (attemptLatency env w (S f)) 0
             (io_Copy_Discard (Body rsp)) None,
           after w (S f) f b))
     \/
     f = n /\
     backoffLoopGET env u n b w
     = (mkResult None 0 0 0 (Some errBackoffExceeded), after w n n b)).
Proof.
  induction n as [|n IH]; intros b w.
  - exists 0%nat. split; [lia|]. split; [intros j Hj; lia|].
    right. split; [done|]. simpl. unfold ret. by rewrite after_0.
  - destruct (net env (calls w) (getRequest u)) as [rsp|e] eqn:E.
    + exists 0%nat. split; [lia|]. split; [intros j Hj; lia|].
      left. split; [lia|]. exists rsp. rewrite Nat.add_0_r.
      split; [done|]. apply backoffLoopGET_succeeds; [lia| |].
      * intros j Hj. lia.
      * by rewrite Nat.add_0_r.
    + set (w1 := mkWorld (S (calls w)) (draws w) (S (S (ticks w)))
                   (slept w ++ [b])).
      destruct (IH (nextBackoff b) w1) as (f & Hf & Hfail & Hcase).
      assert (forall j, (j < S f)%nat ->
                exists e', net env (calls w + j) (getRequest u) = inr e')
        as Hfail'.
      { intros [|j] Hj; [rewrite Nat.add_0_r; by eexists|].
        destruct (Hfail j) as [e' He']; [lia|]. exists e'.
        rewrite <- He'. unfold w1. simpl. f_equal. lia. }
      exists (S f). split; [lia|]. split; [done|].
      rewrite (backoffLoopGET_fail _ _ _ _ _ _ E). fold w1.
      destruct Hcase as [(Hlt & rsp & Hok & Heq)|(-> & Heq)].
      * left. split; [lia|]. exists rsp. split.
        -- rewrite <- Hok. unfold w1. simpl. f_equal. lia.
        -- rewrite Heq. unfold w1.
           by rewrite after_fail_step, attemptLatency_shift.
      * right. split; [done|]. rewrite Heq. unfold w1.
        by rewrite after_fail_step.
Qed.

Lemma backoffLoopPOST_cases u c js n : forall b w,
  marshal env c = inl js ->
  exists f : nat,
    (f <= n)%nat /\
    (forall j, (j < f)%nat ->
       exists e, net env (calls w + j) (postRequest u js) = inr e) /\
    ((f < n)%nat /\
     (exists rsp,
        net env (calls w + f) (postRequest u js) = inl rsp /\
        backoffLoopPOST env u c n b w
        = (mkResult (Some rsp) (attemptLatency env w (S f))
             (Z.of_nat (String.length js)) (io_Copy_Discard (Body rsp)) None,
           after w (S f) f b))
     \/
     f = n /\
     backoffLoopPOST env u c n b w
     = (mkResult None 0 0 0 (Some errBackoffExceeded), after w n n b)).
Proof.
  induction n as [|n IH]; intros b w Hm.
  - exists 0%nat. split; [lia|]. split; [intros j Hj; lia|].
    right. split; [done|]. simpl. unfold ret. by rewrite after_0.
  - destruct (net env (calls w) (postRequest u js)) as [rsp|e] eqn:E.
    + exists 0%nat. split; [lia|]. split; [intros j Hj; lia|].
      left. split; [lia|]. exists rsp. rewrite Nat.add_0_r.
      split; [done|]. apply (backoffLoopPOST_succeeds env u c js); [done|lia| |].
      * intros j Hj. lia.
      * by rewrite Nat.add_0_r.
    + set (w1 := mkWorld (S (calls w)) (draws w) (S (S (ticks w)))
                   (slept w ++ [b])).
      destruct (IH (nextBackoff b) w1 Hm) as (f & Hf & Hfail & Hcase).
      assert (forall j, (j < S f)%nat ->
                exists e', net env (calls w + j) (postRequest u js) = inr e')
        as Hfail'.
      { intros [|j] Hj; [rewrite Nat.add_0_r; by eexists|].
        destruct (Hfail j) as [e' He']; [lia|]. exists e'.
        rewrite <- He'. unfold w1. simpl. f_equal. lia. }
      exists (S f). split; [lia|]. split; [done|].
      rewrite (backoffLoopPOST_fail _ _ _ _ _ _ _ _ Hm E). fold w1.
      destruct Hcase as [(Hlt & rsp & Hok & Heq)|(-> & Heq)].
      * left. split; [lia|]. exists rsp. split.
        -- rewrite <- Hok. unfold w1. simpl. f_equal. lia.
        -- rewrite Heq. unfold w1.
           by rewrite after_fail_step, attemptLatency_shift.
      * right. split; [done|]. rewrite Heq. unfold w1.
        by rewrite after_fail_step.
Qed.

End RequesterCases.

(** Whatever the target does, a GET call is decided by the number of
    transport errors that open its first ten attempts: it returns the first
    response it receives, or the error "exponential backoff exceeded" after
    the tenth failure.  It never makes an eleventh HTTP call, sleeps once
    per failed attempt, never less than 20 ms nor more than 5 s at a time
    and at most 15.1 s in all, and takes no random draw. *)
Theorem GET_returns_first_answer_within_ten_attempts
  (env : Env) (u : string) (w : World) :
  exists failed : nat,
    (failed <= 10)%nat /\
    (forall j, (j < failed)%nat ->
       exists e, net env (calls w + j) (getRequest u) = inr e) /\
    Forall (fun d => 20 * Millisecond <= d <= 5 * Second)
           (delays failed (20 * Millisecond)) /\
    totalDuration (delays failed (20 * Millisecond)) <= 15100 * Millisecond /\
    ((failed < 10)%nat /\
     (exists rsp,
        net env (calls w + failed) (getRequest u) = inl rsp /\
        exponentialBackoffGET env u w
        = (mkResult (Some rsp) (attemptLatency env w (S failed)) 0
             (io_Copy_Discard (Body rsp)) None,
           after w (S failed) failed (20 * Millisecond)))
     \/
     failed = 10%nat /\
     exponentialBackoffGET env u w
     = (mkResult None 0 0 0 (Some errBackoffExceeded),
        after w 10 10 (20 * Millisecond))).
Proof.
  destruct (backoffLoopGET_cases env u 10 (20 * Millisecond) w)
    as (f & Hf & Hfail & Hcase).
  exists f. split; [done|]. split; [done|]. split; [|split].
  - apply delays_bounds.
    unfold Second, Millisecond, Microsecond, Nanosecond. lia.
  - by apply delays_total.
  - exact Hcase.
Qed.

(** A POST call whose comment cannot be serialized returns the error of
    [json.Marshal] at once: no HTTP call, no sleep, one clock reading.
    Otherwise it behaves as a GET call does, with the serialized comment as
    the bytes sent. *)
Theorem POST_fails_at_once_or_returns_first_answer
  (env : Env) (u : string) (c : Comment) (w : World) :
  match marshal env c with
  | inr e =>
    exponentialBackoffPOST env u c w
    = (mkResult None 0 0 0 (Some e),
       mkWorld (calls w) (draws w) (S (ticks w)) (slept w))
  | inl js =>
    exists failed : nat,
      (failed <= 10)%nat /\
      (forall j, (j < failed)%nat ->
         exists e, net env (calls w + j) (postRequest u js) = inr e) /\
      Forall (fun d => 20 * Millisecond <= d <= 5 * Second)
             (delays failed (20 * Millisecond)) /\
      totalDuration (delays failed (20 * Millisecond))
        <= 15100 * Millisecond /\
      ((failed < 10)%nat /\
       (exists rsp,
          net env (calls w + failed) (postRequest u js) = inl rsp /\
          exponentialBackoffPOST env u c w
          = (mkResult (Some rsp) (attemptLatency env w (S failed))
               (Z.of_nat (String.length js)) (io_Copy_Discard (Body rsp))
               None,
             after w (S failed) failed (20 * Millisecond)))
       \/
       failed = 10%nat /\
       exponentialBackoffPOST env u c w
       = (mkResult None 0 0 0 (Some errBackoffExceeded),
          after w 10 10 (20 * Millisecond)))
  end.
Proof.
  destruct (marshal env c) as [js|e] eqn:Em.
  - destruct (backoffLoopPOST_cases env u c js 10 (20 * Millisecond) w Em)
      as (f & Hf & Hfail & Hcase).
    exists f. split; [done|]. split; [done|]. split; [|split].
    + apply delays_bounds.
      unfold Second, Millisecond, Microsecond, Nanosecond. lia.
    + by apply delays_total.
    + exact Hcase.
  - unfold exponentialBackoffPOST.
    by apply backoffLoopPOST_marshal_error.
Qed.

(** ** The effort of a worker *)

Section WorkerEffort.

Variable env : Env.
Variable base : string.

(** What one iteration costs: [a] HTTP calls of which [f] failed and were
    followed by a sleep, and [d] random draws. *)
Lemma iteration_effects (s : Stats) (w : World) :
  exists (a f d : nat) (s' : Stats) (w' : World),
    iteration env base s w = (s', w') /\
    (a <= 10)%nat /\ (f <= 10)%nat /\ (d = 21 \/ d = 51)%nat /\
    calls w' = (calls w + a)%nat /\
    draws w' = (draws w + d)%nat /\
    slept w' = slept w ++ delays f (20 * Millisecond) /\
    (s' = recordError s \/
     (1 <= a)%nat /\
     exists sent recv lat,
       s' = recordGET s sent recv lat \/ s' = recordPOST s sent recv lat).
Proof.
  unfold iteration, bind.
  pose proof (randomString_world env 10 w) as H1.
  destruct (randomString env 10 w) as [queryKey w1]. simpl in H1. subst w1.
  match goal with
  | |- context [randomString env 10 ?w1] =>
      pose proof (randomString_world env 10 w1) as H2;
      destruct (randomString env 10 w1) as [queryValue w2]
  end.
  simpl in H2. subst w2. unfold rand_Intn.
  cbn [calls draws ticks slept].
  match goal with |- context [?c =? 0] => destruct (c =? 0) end.
  - unfold exponentialBackoffGET.
    match goal with
    | |- context [backoffLoopGET env ?u 10 ?b ?w3] =>
        destruct (backoffLoopGET_cases env u 10 b w3)
          as (f & Hf & _ & [(Hlt & rsp & _ & Heq)|(-> & Heq)])
    end; rewrite Heq; unfold ret; cbn [err bytesSent bytesRecv latency].
    + exists (S f), f, 21%nat. eexists _, _. split; [reflexivity|].
      unfold after. cbn [calls draws slept].
      split; [lia|]. split; [lia|]. split; [lia|]. split; [lia|].
      split; [lia|]. split; [reflexivity|].
      right. split; [lia|]. eexists _, _, _. left. reflexivity.
    + exists 10%nat, 10%nat, 21%nat. eexists _, _. split; [reflexivity|].
      unfold after. cbn [calls draws slept].
      split; [lia|]. split; [lia|]. split; [lia|]. split; [lia|].
      split; [lia|]. split; [reflexivity|].
      left. reflexivity.
  - match goal with
    | |- context [randomString env 30 ?w3] =>
        pose proof (randomString_world env 30 w3) as H3;
        destruct (randomString env 30 w3) as [comment w4]
    end.
    simpl in H3. subst w4. unfold time_Now.
    cbn [calls draws ticks slept]. unfold exponentialBackoffPOST.
    match goal with
    | |- context [backoffLoopPOST env ?u ?c 10 ?b ?w5] =>
        destruct (marshal env c) as [js|e] eqn:Em;
        [ destruct (backoffLoopPOST_cases env u c js 10 b w5 Em)
            as (f & Hf & _ & [(Hlt & rsp & _ & Heq)|(-> & Heq)])
        | pose proof (backoffLoopPOST_marshal_error env u c 9 b w5 e Em)
            as Heq ]
    end; rewrite Heq; unfold ret; cbn [err bytesSent bytesRecv latency].
    + exists (S f), f, 51%nat. eexists _, _. split; [reflexivity|].
      unfold after. cbn [calls draws slept].
      split; [lia|]. split; [lia|]. split; [lia|]. split; [lia|].
      split; [lia|]. split; [reflexivity|].
      right. split; [lia|]. eexists _, _, _. right. reflexivity.
    + exists 10%nat, 10%nat, 51%nat. eexists _, _. split; [reflexivity|].
      unfold after. cbn [calls draws slept].
      split; [lia|]. split; [lia|]. split; [lia|]. split; [lia|].
      split; [lia|]. split; [reflexivity|].
      left. reflexivity.
    + exists 0%nat, 0%nat, 51%nat. eexists _, _. split; [reflexivity|].
      cbn [calls draws slept delays]. rewrite app_nil_r.
      split; [lia|]. split; [lia|]. split; [lia|]. split; [lia|].
      split; [lia|]. split; [reflexivity|].
      left. reflexivity.
Qed.

Lemma totalDuration_app (l1 l2 : list Duration) :
  totalDuration (l1 ++ l2) = totalDuration l1 + totalDuration l2.
Proof.
  unfold totalDuration. induction l1 as [|d l1 IH]; simpl; lia.
Qed.

Lemma requestLoop_effects (n : nat) : forall i s w,
  CountInv i s -> i + Z.of_nat n <= max_int ->
  exists s' w' extra,
    requestLoop env base n s w = (s', w') /\
    (SuccessfulGET s' + SuccessfulPOST s')
      - (SuccessfulGET s + SuccessfulPOST s)
      <= Z.of_nat (calls w') - Z.of_nat (calls w) <= 10 * Z.of_nat n /\
    21 * Z.of_nat n <= Z.of_nat (draws w') - Z.of_nat (draws w)
      <= 51 * Z.of_nat n /\
    slept w' = slept w ++ extra /\
    Z.of_nat (length extra) <= 10 * Z.of_nat n /\
    Forall (fun d => 20 * Millisecond <= d <= 5 * Second) extra /\
    totalDuration extra <= 15100 * Millisecond * Z.of_nat n.
Proof.
  induction n as [|n IH]; intros i s w Hinv Hmax.
  - exists s, w, []. simpl. rewrite app_nil_r.
    repeat split; try lia. by constructor.
  - rewrite requestLoop_S.
    pose proof (iteration_step env base (fun _ => True) s w
                  (message_sizes_True env) I) as Hstep.
    destruct (iteration_effects s w)
      as (a & f & d & s1 & w1 & E & Ha & Hf & Hd & Hc & Hdr & Hsl & Hs1).
    rewrite E in *. cbn [fst snd] in *.
    pose proof (Step_CountInv _ i s s1 Hinv Hstep ltac:(lia)) as Hinv1.
    destruct (IH (i + 1) s1 w1 Hinv1 ltac:(lia))
      as (s' & w' & extra & E' & Hcalls & Hdraws & Hslept & Hlen & Hall & Htot).
    exists s', w', (delays f (20 * Millisecond) ++ extra).
    split; [done|].
    assert (SuccessfulGET s1 + SuccessfulPOST s1
              - (SuccessfulGET s + SuccessfulPOST s) <= Z.of_nat a) as Hsucc.
    { destruct Hinv as (Hg & Hp & He & Hi & _).
      unfold iterationsCounted in Hi.
      destruct Hs1 as [->|(H1 & sent & recv & lat & [->| ->])]; simpl;
        rewrite ?int_add_exact
          by (unfold in_int, min_int, max_int in *; lia); lia. }
    pose proof (delays_total f Hf) as Htf.
    pose proof (delays_bounds f (20 * Millisecond)) as Hbf.
    split; [lia|]. split; [lia|].
    split; [by rewrite Hslept, Hsl, app_assoc|].
    split; [rewrite length_app, delays_length; lia|].
    split.
    + apply Forall_app. split; [|done]. apply Hbf.
      unfold Second, Millisecond, Microsecond, Nanosecond. lia.
    + rewrite totalDuration_app. lia.
Qed.

End WorkerEffort.

(** A worker of [n] iterations makes at least one HTTP call per
    successful request and at most ten per iteration, takes between 21 and
    51 random draws per iteration, and sleeps at most ten times per
    iteration, each time between 20 ms and 5 s and at most 15.1 s per
    iteration in all. *)
Theorem worker_effort_is_bounded
  (env : Env) (base : string) (n : Z) (w : World) :
  0 <= n <= max_int ->
  let s := fst (makeRequests env base n w) in
  let w' := snd (makeRequests env base n w) in
  SuccessfulGET s + SuccessfulPOST s
    <= Z.of_nat (calls w') - Z.of_nat (calls w) <= 10 * n /\
  21 * n <= Z.of_nat (draws w') - Z.of_nat (draws w) <= 51 * n /\
  exists extra,
    slept w' = slept w ++ extra /\
    Z.of_nat (length extra) <= 10 * n /\
    Forall (fun d => 20 * Millisecond <= d <= 5 * Second) extra /\
    totalDuration extra <= 15100 * Millisecond * n.
Proof.
  intros Hn s w'. subst s w'. unfold makeRequests.
  destruct (requestLoop_effects env base (Z.to_nat n) 0 zeroStats w
              (zeroStats_CountInv) ltac:(lia))
    as (s' & w' & extra & E & Hcalls & Hdraws & Hslept & Hlen & Hall & Htot).
  rewrite E. cbn [fst snd]. rewrite Z2Nat.id in * by lia.
  simpl in Hcalls. split; [lia|]. split; [lia|]. by exists extra.
Qed.

Lemma worker_effort_is_bounded_witness :
  let s := fst (makeRequests envFlaky "http://h" 3 initWorld) in
  let w' := snd (makeRequests envFlaky "http://h" 3 initWorld) in
  SuccessfulGET s + SuccessfulPOST s
    <= Z.of_nat (calls w') - Z.of_nat (calls initWorld) <= 10 * 3 /\
  21 * 3 <= Z.of_nat (draws w') - Z.of_nat (draws initWorld) <= 51 * 3 /\
  exists extra,
    slept w' = slept initWorld ++ extra /\
    Z.of_nat (length extra) <= 10 * 3 /\
    Forall (fun d => 20 * Millisecond <= d <= 5 * Second) extra /\
    totalDuration extra <= 15100 * Millisecond * 3.
Proof.
  apply (worker_effort_is_bounded envFlaky "http://h" 3 initWorld).
  unfold max_int. lia.
Defined.

(** ** The percentile table *)

Lemma StronglySorted_lookup_le (l : list Z) :
  StronglySorted Z.le l ->
  forall i j x y, (i <= j)%nat -> l !! i = Some x -> l !! j = Some y -> x <= y.
Proof.
  induction 1 as [|a l _ IH Hall]; intros i j x y Hij Hx Hy; [done|].
  destruct i as [|i], j as [|j]; simpl in *; try lia.
  - injection Hx as <-. injection Hy as <-. lia.
  - injection Hx as <-. by apply (Forall_lookup_1 _ _ _ _ Hall Hy).
  - apply (IH i j); [lia|done|done].
Qed.

Lemma sortDurationSlice_lookup_le (l : list Duration) i j x y :
  (i <= j)%nat ->
  sortDurationSlice l !! i = Some x -> sortDurationSlice l !! j = Some y ->
  x <= y.
Proof.
  apply StronglySorted_lookup_le.
  apply (Sorted_StronglySorted Z.le), sortDurationSlice_Sorted.
Qed.

Lemma sortDurationSlice_lookup_elem (l : list Duration) i x :
  sortDurationSlice l !! i = Some x -> x ∈ l.
Proof.
  intros H. rewrite <- (sortDurationSlice_perm l).
  by apply list_elem_of_lookup_2 in H.
Qed.

Lemma percentileTable_Done (latencies : list Duration) :
  latencies <> [] ->
  Z.of_nat (length latencies) * 100 <= max_int ->
  exists table,
    percentileTable latencies = Done table /\
    (forall p, is_Some (table !! p) <-> p ∈ percentiles) /\
    (forall p, p ∈ percentiles ->
       exists v,
         table !! p = Some v /\
         sortDurationSlice latencies
           !! Z.to_nat (Z.of_nat (length latencies) * p / 100) = Some v).
Proof.
  intros Hne Hmax. unfold percentileTable.
  assert (sortDurationSlice latencies <> []) as Hne'.
  { intros E. apply Hne. apply Permutation_nil_r.
    rewrite <- E. symmetry. apply sortDurationSlice_perm. }
  destruct (percentileLoop_Done (sortDurationSlice latencies) percentiles ∅
              Hne') as (table & Htable & Hspec).
  { by rewrite sortDurationSlice_length. }
  { apply percentiles_in_range. }
  rewrite sortDurationSlice_length in Hspec.
  exists table. split; [done|]. split.
  - intros p. split.
    + intros Hp. destruct (decide (p ∈ percentiles)) as [|Hnin]; [done|].
      rewrite (proj2 (Hspec p) Hnin), lookup_empty in Hp.
      by destruct Hp.
    + intros Hp. by destruct (proj1 (Hspec p) Hp).
  - intros p Hp. destruct (proj1 (Hspec p) Hp) as [[v Hv] Heq].
    exists v. split; [done|]. by rewrite <- Heq.
Qed.

(** For a non-empty latency sequence the table holds exactly the keys 50,
    90, 95 and 99; its four values are samples of the sequence and do not
    decrease from one percentile to the next; and with at most 100 samples
    the 99th percentile is the largest sample. *)
Theorem percentile_table_is_ordered_samples (latencies : list Duration) :
  latencies <> [] ->
  Z.of_nat (length latencies) * 100 <= max_int ->
  exists table p50 p90 p95 p99,
    percentileTable latencies = Done table /\
    table !! 50 = Some p50 /\ table !! 90 = Some p90 /\
    table !! 95 = Some p95 /\ table !! 99 = Some p99 /\
    (forall p, is_Some (table !! p) <-> p ∈ percentiles) /\
    p50 <= p90 /\ p90 <= p95 /\ p95 <= p99 /\
    p50 ∈ latencies /\ p90 ∈ latencies /\ p95 ∈ latencies /\
    p99 ∈ latencies /\
    (Z.of_nat (length latencies) <= 100 ->
     Forall (fun d => d <= p99) latencies).
Proof.
  intros Hne Hmax.
  destruct (percentileTable_Done latencies Hne Hmax)
    as (table & Htable & Hkeys & Hget).
  set (n := Z.of_nat (length latencies)) in *.
  assert (0 < n) as Hn by (destruct latencies; [done|unfold n; simpl; lia]).
  destruct (Hget 50) as (p50 & H50 & L50); [unfold percentiles; repeat constructor|].
  destruct (Hget 90) as (p90 & H90 & L90); [unfold percentiles; repeat constructor|].
  destruct (Hget 95) as (p95 & H95 & L95); [unfold percentiles; repeat constructor|].
  destruct (Hget 99) as (p99 & H99 & L99); [unfold percentiles; repeat constructor|].
  assert (forall p q, 0 <= p <= q ->
            (Z.to_nat (n * p / 100) <= Z.to_nat (n * q / 100))%nat) as Hidx.
  { intros p q Hpq. apply Z2Nat.inj_le.
    - apply Z.div_pos; nia.
    - apply Z.div_pos; nia.
    - apply Z.div_le_mono; nia. }
  exists table, p50, p90, p95, p99.
  split; [done|]. do 4 (split; [done|]).
  split; [done|].
  split; [apply (sortDurationSlice_lookup_le latencies _ _ _ _
                   (Hidx 50 90 ltac:(lia)) L50 L90)|].
  split; [apply (sortDurationSlice_lookup_le latencies _ _ _ _
                   (Hidx 90 95 ltac:(lia)) L90 L95)|].
  split; [apply (sortDurationSlice_lookup_le latencies _ _ _ _
                   (Hidx 95 99 ltac:(lia)) L95 L99)|].
  do 4 (split; [by eapply sortDurationSlice_lookup_elem|]).
  intros Hsmall. apply Forall_forall. intros d Hd.
  rewrite <- (sortDurationSlice_perm latencies) in Hd.
  apply list_elem_of_lookup_1 in Hd as [i Hi].
  pose proof (lookup_lt_Some _ _ _ Hi) as Hlt.
  rewrite sortDurationSlice_length in Hlt.
  assert (n - 1 <= n * 99 / 100) as Hlast
    by (apply Z.div_le_lower_bound; lia).
  assert (i <= Z.to_nat (n * 99 / 100))%nat as Hle by (unfold n in *; lia).
  apply (sortDurationSlice_lookup_le latencies i _ _ _ Hle Hi L99).
Qed.

Lemma percentile_table_is_ordered_samples_witness :
  exists table p50 p90 p95 p99,
    percentileTable [30; 10; 20] = Done table /\
    table !! 50 = Some p50 /\ table !! 90 = Some p90 /\
    table !! 95 = Some p95 /\ table !! 99 = Some p99 /\
    (forall p, is_Some (table !! p) <-> p ∈ percentiles) /\
    p50 <= p90 /\ p90 <= p95 /\ p95 <= p99 /\
    p50 ∈ [30; 10; 20] /\ p90 ∈ [30; 10; 20] /\ p95 ∈ [30; 10; 20] /\
    p99 ∈ [30; 10; 20] /\
    (Z.of_nat (length [30; 10; 20]) <= 100 ->
     Forall (fun d => d <= p99) [30; 10; 20]).
Proof.
  apply (percentile_table_is_ordered_samples [30; 10; 20]).
  - discriminate.
  - unfold max_int. simpl. lia.
Defined.


(** ** Merging partial aggregates *)

Lemma mergeStats_assoc (a b c : Stats) :
  mergeStats (mergeStats a b) c = mergeStats a (mergeStats b c).
Proof.
  unfold mergeStats. simpl. by rewrite !int_add_assoc, app_assoc.
Qed.

Lemma mergeStats_zero_l (s : Stats) :
  wellRanged s -> mergeStats zeroStats s = s.
Proof.
  intros (? & ? & ? & ? & ?). destruct s. unfold mergeStats, int_add.
  simpl in *. by rewrite !wrap64_id.
Qed.

Lemma mergeStats_zero_r (s : Stats) :
  wellRanged s -> mergeStats s zeroStats = s.
Proof.
  intros (? & ? & ? & ? & ?). destruct s. unfold mergeStats, int_add.
  simpl in *. rewrite !Z.add_0_r, app_nil_r. by rewrite !wrap64_id.
Qed.

Lemma mergeStats_wellRanged (a b : Stats) : wellRanged (mergeStats a b).
Proof. repeat split; apply wrap64_range. Qed.

Lemma zeroStats_wellRanged : wellRanged zeroStats.
Proof. repeat split; unfold min_int, max_int; simpl; lia. Qed.

Lemma foldl_mergeStats_wellRanged (l : list Stats) : forall acc,
  wellRanged acc -> wellRanged (foldl mergeStats acc l).
Proof.
  induction l as [|s l IH]; intros acc Hacc; [done|].
  apply IH, mergeStats_wellRanged.
Qed.

Lemma foldl_mergeStats_aggregate (l : list Stats) : forall acc,
  wellRanged acc -> foldl mergeStats acc l = mergeStats acc (aggregate l).
Proof.
  unfold aggregate.
  induction l as [|s l IH]; intros acc Hacc; simpl.
  - by rewrite mergeStats_zero_r.
  - rewrite (IH (mergeStats acc s)), (IH (mergeStats zeroStats s))
      by apply mergeStats_wellRanged.
    by rewrite !mergeStats_assoc, mergeStats_zero_l
      by apply mergeStats_wellRanged.
Qed.

(** Merging is associative, the zero record is its unit on records with
    64-bit fields, every aggregate is such a record, and the aggregate of
    two batches of records received one after the other is the merge of
    the aggregates of the batches. *)
Theorem aggregate_of_batches :
  (forall a b c,
     mergeStats (mergeStats a b) c = mergeStats a (mergeStats b c)) /\
  (forall s, wellRanged s ->
     mergeStats zeroStats s = s /\ mergeStats s zeroStats = s) /\
  (forall batch, wellRanged (aggregate batch)) /\
  (forall batch1 batch2,
     aggregate (batch1 ++ batch2)
     = mergeStats (aggregate batch1) (aggregate batch2)).
Proof.
  split; [apply mergeStats_assoc|]. split; [|split].
  - intros s Hs. split; [by apply mergeStats_zero_l|by apply mergeStats_zero_r].
  - intros batch. apply foldl_mergeStats_wellRanged, zeroStats_wellRanged.
  - intros batch1 batch2. unfold aggregate at 1. rewrite foldl_app.
    apply foldl_mergeStats_aggregate.
    apply foldl_mergeStats_wellRanged, zeroStats_wellRanged.
Qed.

(** ** When the run completes *)

(** [main] ends in one of four ways.  A negative worker count panics when
    the channel is made and a zero worker count panics in the division.
    With workers, the run panics at the percentile lookup when no request
    succeeded, and otherwise it completes: the summary carries the merged
    totals, the elapsed time between the two clock readings of [main] and
    a table with exactly the keys 50, 90, 95 and 99. *)
Theorem main_completes_iff_a_request_succeeded
  {float64 : Type} (float64_of_int : Z -> float64)
  (Duration_Seconds : Duration -> float64)
  (float64_div : float64 -> float64 -> float64)
  (cfg : Config) (sch : Schedule) :
  0 <= numRequests cfg ->
  numRequests cfg * 100 <= max_int ->
  valid_schedule cfg sch ->
  let run := main float64_of_int Duration_Seconds float64_div cfg sch in
  let successes :=
    SuccessfulGET (merged cfg sch) + SuccessfulPOST (merged cfg sch) in
  (threads cfg < 0 -> run = Panic "makechan: size out of range") /\
  (threads cfg = 0 -> run = Panic "integer divide by zero") /\
  (0 < threads cfg -> successes = 0 -> run = Panic "index out of range") /\
  (0 < threads cfg -> 0 < successes ->
   exists summary,
     run = Done summary /\
     elapsedTime summary = mainClock sch 1%nat - mainClock sch 0%nat /\
     successfulGET summary = SuccessfulGET (merged cfg sch) /\
     successfulPOST summary = SuccessfulPOST (merged cfg sch) /\
     errors summary = Errors (merged cfg sch) /\
     totalBytesSent summary = TotalBytesSent (merged cfg sch) /\
     totalBytesRecv summary = TotalBytesRecv (merged cfg sch) /\
     (forall p, is_Some (percentileLatencies summary !! p)
                <-> p ∈ percentiles)).
Proof.
  intros Hn0 Hn100 Hv run successes.
  split; [|split; [|split]].
  - intros Ht. unfold run, main.
    by destruct (Z.ltb_spec (threads cfg) 0); [|lia].
  - intros Ht. unfold run, main. by rewrite Ht.
  - intros Ht Hs. unfold run. apply main_panics_on_empty; [done|].
    destruct (merged_CountInv cfg sch ltac:(lia) Ht Hv)
      as (Hg & Hp & _ & _ & Hlen).
    destruct (Latencies (merged cfg sch)); [done|].
    unfold successes in Hs. simpl in Hlen. lia.
  - intros Ht Hs. unfold run. rewrite main_unfold by done.
    destruct (requestsPerThread_exact cfg ltac:(lia) Ht) as (_ & H0 & Hle).
    destruct (merged_CountInv cfg sch ltac:(lia) Ht Hv)
      as (Hg & Hp & He & Hi & Hlen).
    unfold iterationsCounted in Hi.
    destruct (percentileTable_Done (Latencies (merged cfg sch)))
      as (table & -> & Hkeys & _).
    + intros E. rewrite E in Hlen. unfold successes in Hs. simpl in Hlen. lia.
    + lia.
    + eexists. split; [reflexivity|]. cbn.
      do 6 (split; [reflexivity|]). exact Hkeys.
Qed.

Lemma main_completes_iff_a_request_succeeded_witness :
  exists summary,
    main fracOfInt fracSeconds fracDiv sampleConfig sampleSchedule
      = Done summary /\
    elapsedTime summary = 5000000 /\
    successfulGET summary = 5 /\ successfulPOST summary = 1 /\
    errors summary = 0 /\
    (forall p, is_Some (percentileLatencies summary !! p)
               <-> p ∈ percentiles).
Proof.
  assert (0 <= numRequests sampleConfig) as Hn0 by (simpl; lia).
  assert (numRequests sampleConfig * 100 <= max_int) as Hn100
    by (unfold max_int; simpl; lia).
  assert (valid_schedule sampleConfig sampleSchedule) as Hv
    by (unfold valid_schedule; simpl; apply Permutation_swap).
  destruct (main_completes_iff_a_request_succeeded fracOfInt fracSeconds
              fracDiv sampleConfig sampleSchedule Hn0 Hn100 Hv)
    as (_ & _ & _ & Hdone).
  destruct Hdone as (summary & E & He & Hg & Hp & Herr & _ & _ & Hkeys).
  - simpl. lia.
  - vm_compute. reflexivity.
  - exists summary. rewrite He, Hg, Hp, Herr.
    split; [exact E|]. split; [vm_compute; reflexivity|].
    split; [vm_compute; reflexivity|]. split; [vm_compute; reflexivity|].
    split; [vm_compute; reflexivity|]. exact Hkeys.
Defined.

(** ** Byte accounting of a worker *)

Section ByteAccounting.

Variable env : Env.
Variable base : string.
Variable B : Z.

Hypothesis sizes : messages_within B env.
Hypothesis B_nonneg : 0 <= B.

Lemma iteration_bytes (s : Stats) (w : World) :
  fst (iteration env base s w) = recordError s \/
  (exists recv lat,
     0 <= recv <= B /\ fst (iteration env base s w) = recordGET s 0 recv lat)
  \/
  (exists sent recv lat,
     0 <= sent <= B /\ 0 <= recv <= B /\
     fst (iteration env base s w) = recordPOST s sent recv lat).
Proof.
  destruct (iteration_effects env base s w)
    as (a & f & d & s' & w' & E & _). clear a f d.
  rewrite E. cbn [fst]. revert E. unfold iteration, bind.
  destruct (randomString env 10 w) as [queryKey w1].
  destruct (randomString env 10 w1) as [queryValue w2].
  destruct (rand_Intn env 2 w2) as [coin w3].
  destruct (coin =? 0).
  - match goal with
    | |- context [exponentialBackoffGET env ?u w3] =>
        pose proof (backoffLoopGET_result env (fun x => 0 <= x <= B) u 10
                      (20 * Millisecond) w3 sizes) as Hr;
        unfold exponentialBackoffGET;
        destruct (backoffLoopGET env u 10 (20 * Millisecond) w3) as [r w4]
    end.
    simpl in Hr. destruct Hr as [[e He]|(He & Hs & Hr)]; rewrite He;
      unfold ret; intros [= <- <-].
    + by left.
    + right. left. exists (bytesRecv r), (latency r). rewrite Hs.
      split; [exact Hr|]. reflexivity.
  - destruct (randomString env 30 w3) as [comment w4].
    destruct (time_Now env w4) as [t w5].
    match goal with
    | |- context [exponentialBackoffPOST env ?u ?c w5] =>
        pose proof (backoffLoopPOST_result env (fun x => 0 <= x <= B) u c 10
                      (20 * Millisecond) w5 sizes) as Hr;
        unfold exponentialBackoffPOST;
        destruct (backoffLoopPOST env u c 10 (20 * Millisecond) w5)
          as [r w6]
    end.
    simpl in Hr. destruct Hr as [[e He]|(He & Hs & Hr)]; rewrite He;
      unfold ret; intros [= <- <-].
    + by left.
    + right. right. exists (bytesSent r), (bytesRecv r), (latency r).
      split; [exact Hs|]. split; [exact Hr|]. reflexivity.
Qed.

Lemma requestLoop_ByteAccount (n : nat) : forall i s w,
  CountInv i s -> ByteAccount B s ->
  i + Z.of_nat n <= max_int -> B * (i + Z.of_nat n) <= max_int ->
  ByteAccount B (fst (requestLoop env base n s w)).
Proof.
  induction n as [|n IH]; intros i s w Hc Hb Hi HB; [done|].
  rewrite requestLoop_S.
  pose proof (iteration_step env base (fun _ => True) s w
                (message_sizes_True env) I) as Hstep.
  pose proof (Step_CountInv _ i s _ Hc Hstep ltac:(lia)) as Hc1.
  apply (IH (i + 1)); [done| |lia|].
  2: { replace (i + 1 + Z.of_nat n) with (i + Z.of_nat (S n)) by lia. done. }
  destruct Hc as (Hg & Hp & He & Hsum & _).
  destruct Hb as (Hsent & Hrecv). unfold iterationsCounted in Hsum.
  assert (B * (i + 1) <= max_int) as HB1 by nia.
  unfold ByteAccount.
  destruct (iteration_bytes s w)
    as [->|[(recv & lat & Hr & ->)|(sent & recv & lat & Hs & Hr & ->)]];
    simpl;
    rewrite ?int_add_exact by (unfold in_int, min_int, max_int in *; nia);
    nia.
Qed.

End ByteAccounting.

(** When no message is larger than [B] bytes and the byte volume fits in
    64 bits, the bytes a worker reports as sent are at most [B] per
    successful POST and the bytes received at most [B] per successful
    request: a GET sends none, and a failed request adds nothing.  A
    record without a successful POST shows zero bytes sent. *)
Theorem worker_bytes_follow_successes
  (env : Env) (base : string) (B n : Z) (w : World) :
  messages_within B env ->
  0 <= B -> 0 <= n <= max_int -> B * n <= max_int ->
  let s := fst (makeRequests env base n w) in
  0 <= TotalBytesSent s <= B * SuccessfulPOST s /\
  0 <= TotalBytesRecv s <= B * (SuccessfulGET s + SuccessfulPOST s) /\
  (SuccessfulPOST s = 0 -> TotalBytesSent s = 0).
Proof.
  intros Hsizes HB Hn Hvol s.
  assert (ByteAccount B s) as (Hs & Hr).
  { unfold s, makeRequests.
    apply (requestLoop_ByteAccount env base B Hsizes HB (Z.to_nat n) 0);
      rewrite ?Z2Nat.id by lia; try lia.
    - apply zeroStats_CountInv.
    - unfold ByteAccount. simpl. lia. }
  split; [done|]. split; [done|]. intros H0. rewrite H0 in Hs. lia.
Qed.

Lemma worker_bytes_follow_successes_witness :
  let s := fst (makeRequests envHealthy "http://h" 4 initWorld) in
  0 <= TotalBytesSent s <= 2 * SuccessfulPOST s /\
  0 <= TotalBytesRecv s <= 2 * (SuccessfulGET s + SuccessfulPOST s) /\
  (SuccessfulPOST s = 0 -> TotalBytesSent s = 0).
Proof.
  apply (worker_bytes_follow_successes envHealthy "http://h" 2 4 initWorld).
  - split.
    + intros n r rsp H. simpl in H.
      destruct (method r); injection H as <-; simpl; lia.
    + intros c text H. injection H as <-. simpl. lia.
  - lia.
  - unfold max_int. lia.
  - unfold max_int. lia.
Defined.

(** ** The requests of a worker *)

Section WorkerRequests.

Variables env1 env2 : Env.
Variable base : string.

Hypothesis same : same_but_target env1 env2.

Lemma randomString_same (n : nat) : forall w,
  randomString env1 n w = randomString env2 n w.
Proof.
  destruct same as (Hrnd & _ & _).
  induction n as [|n IH]; intros w; [done|].
  cbn [randomString]. unfold bind, rand_Intn. by rewrite Hrnd, IH.
Qed.

Lemma backoffLoopGET_same u n : forall b w,
  (forall i, net env1 i (getRequest u) = net env2 i (getRequest u)) ->
  backoffLoopGET env1 u n b w = backoffLoopGET env2 u n b w.
Proof.
  destruct same as (_ & Hnow & _).
  induction n as [|n IH]; intros b w Hnet; [done|].
  destruct (net env1 (calls w) (getRequest u)) as [rsp|e] eqn:E.
  - rewrite (backoffLoopGET_ok env1 _ _ _ _ _ E).
    rewrite Hnet in E. rewrite (backoffLoopGET_ok env2 _ _ _ _ _ E).
    by rewrite !Hnow.
  - rewrite (backoffLoopGET_fail env1 _ _ _ _ _ E).
    rewrite Hnet in E. rewrite (backoffLoopGET_fail env2 _ _ _ _ _ E).
    by apply IH.
Qed.

Lemma backoffLoopPOST_same u c n : forall b w,
  (forall text, marshal env1 c = inl text ->
     forall i, net env1 i (postRequest u text)
               = net env2 i (postRequest u text)) ->
  backoffLoopPOST env1 u c n b w = backoffLoopPOST env2 u c n b w.
Proof.
  destruct same as (_ & Hnow & Hm).
  induction n as [|n IH]; intros b w Hnet; [done|].
  destruct (marshal env1 c) as [text|e] eqn:Em.
  - pose proof Em as Em2. rewrite Hm in Em2.
    specialize (Hnet text eq_refl) as Hnet'.
    destruct (net env1 (calls w) (postRequest u text)) as [rsp|e] eqn:E.
    + rewrite (backoffLoopPOST_ok env1 _ _ _ _ _ _ _ Em E).
      rewrite Hnet' in E. rewrite (backoffLoopPOST_ok env2 _ _ _ _ _ _ _ Em2 E).
      by rewrite !Hnow.
    + rewrite (backoffLoopPOST_fail env1 _ _ _ _ _ _ _ Em E).
      rewrite Hnet' in E.
      rewrite (backoffLoopPOST_fail env2 _ _ _ _ _ _ _ Em2 E).
      by apply IH.
  - rewrite (backoffLoopPOST_marshal_error env1 _ _ _ _ _ _ Em).
    rewrite Hm in Em.
    by rewrite (backoffLoopPOST_marshal_error env2 _ _ _ _ _ _ Em).
Qed.

Hypothesis same_answers :
  forall i r, workerRequest env1 base r -> net env1 i r = net env2 i r.

Lemma randomText_randomString (n : nat) (w : World) :
  randomText n (fst (randomString env1 n w)).
Proof. split; [apply randomString_length|apply randomString_chars]. Qed.

Lemma iteration_same (s : Stats) (w : World) :
  iteration env1 base s w = iteration env2 base s w.
Proof.
  destruct same as (Hrnd & Hnow & Hm).
  unfold iteration, bind.
  rewrite <- (randomString_same 10 w).
  pose proof (randomText_randomString 10 w) as Hk.
  destruct (randomString env1 10 w) as [queryKey w1].
  rewrite <- (randomString_same 10 w1).
  pose proof (randomText_randomString 10 w1) as Hv.
  destruct (randomString env1 10 w1) as [queryValue w2].
  cbn [fst] in Hk, Hv.
  unfold rand_Intn. rewrite <- Hrnd.
  match goal with |- context [?c =? 0] => destruct (c =? 0) end.
  - unfold exponentialBackoffGET.
    rewrite backoffLoopGET_same; [done|].
    intros i. apply same_answers. exists queryKey, queryValue.
    split; [done|]. split; [done|]. by left.
  - match goal with
    | |- context [randomString env1 30 ?w3] =>
        rewrite <- (randomString_same 30 w3);
        pose proof (randomText_randomString 30 w3) as Hmsg;
        destruct (randomString env1 30 w3) as [comment w4]
    end.
    cbn [fst] in Hmsg. unfold time_Now. rewrite <- Hnow.
    unfold exponentialBackoffPOST.
    rewrite backoffLoopPOST_same; [done|].
    intros text Htext i. apply same_answers. exists queryKey, queryValue.
    split; [done|]. split; [done|]. right.
    eexists comment, _, text. split; [done|]. split; [exact Htext|done].
Qed.

Lemma requestLoop_same (n : nat) : forall s w,
  requestLoop env1 base n s w = requestLoop env2 base n s w.
Proof.
  induction n as [|n IH]; intros s w; [done|].
  rewrite !requestLoop_S, <- iteration_same. apply IH.
Qed.

End WorkerRequests.



(** * Properties of the guestbook service *)

Section GuestbookProperties.

Import Guestbook.

Variable json : Json.

Lemma LRange_first_ten (db : Redis) :
  failure db = None ->
  LRange db "comments" 0 9 = inl (take 10 (stored db)).
Proof. intros H. unfold LRange, stored. by rewrite H. Qed.

Lemma decodeComments_acc (l : list string) : forall acc,
  decodeComments json l acc
  = match decodeComments json l [] with
    | inl cs => inl (acc ++ cs)
    | inr e => inr e
    end.
Proof.
  induction l as [|x l IH]; intros acc; simpl.
  - by rewrite app_nil_r.
  - destruct (json_Unmarshal json x) as [c|e]; [|done].
    rewrite (IH (acc ++ [c])), (IH [c]).
    destruct (decodeComments json l []); [|done].
    by rewrite <- app_assoc.
Qed.

Lemma decodeComments_length (l : list string) (cs : list Comment) :
  decodeComments json l [] = inl cs -> length cs = length l.
Proof.
  revert cs. induction l as [|x l IH]; intros cs; simpl.
  - by intros [= <-].
  - destruct (json_Unmarshal json x) as [c|e]; [|done].
    rewrite decodeComments_acc.
    destruct (decodeComments json l []) as [cs'|]; [|done].
    intros [= <-]. simpl. by rewrite (IH cs').
Qed.

Lemma decodeComments_round_trip (ps : list (Comment * string)) :
  round_trip json ->
  Forall (fun p => json_Marshal json p.1 = inl p.2) ps ->
  decodeComments json (snd <$> ps) [] = inl (fst <$> ps).
Proof.
  intros Hrt. induction 1 as [|[c text] ps Hp _ IH]; [done|].
  rewrite !fmap_cons. cbn [decodeComments fst snd]. simpl in Hp.
  by rewrite (Hrt c text Hp), decodeComments_acc, IH.
Qed.

Lemma accepted_marshal (req : HttpRequest) (c : Comment) (text : string) :
  accepted json req = Some (c, text) -> json_Marshal json c = inl text.
Proof.
  unfold accepted. destruct (String.eqb (path req) "/comment"); [|done].
  destruct (json_Decode json (requestBody req)) as [c0|]; [|done].
  destruct (json_Marshal json _) as [t|] eqn:E; [|done].
  by intros [= <- <-].
Qed.

Lemma serve_store (req : HttpRequest) (db : Redis) :
  failure db = None ->
  failure (snd (serve json req db)) = None /\
  stored (snd (serve json req db))
  = match accepted json req with
    | Some (_, text) => text :: stored db
    | None => stored db
    end.
Proof.
  intros Hup. unfold serve, accepted, postCommentHandler, LPush.
  destruct (String.eqb (path req) "/comment").
  - destruct (json_Decode json (requestBody req)) as [c|e]; [|done].
    destruct (json_Marshal json _) as [text|e]; [|done].
    rewrite Hup. simpl. split; [done|].
    unfold stored. simpl. by rewrite lookup_insert_eq.
  - by destruct (String.eqb (path req) "/comments").
Qed.

Lemma serveAll_store (reqs : list HttpRequest) : forall db,
  failure db = None ->
  failure (serveAll json reqs db) = None /\
  stored (serveAll json reqs db)
  = reverse (snd <$> omap (accepted json) reqs) ++ stored db.
Proof.
  unfold serveAll.
  induction reqs as [|req reqs IH]; intros db Hup; simpl; [done|].
  destruct (serve_store req db Hup) as [Hup' Hst].
  destruct (IH _ Hup') as [Hup'' Hst'].
  split; [done|]. rewrite Hst', Hst.
  destruct (accepted json req) as [[c text]|]; simpl; [|done].
  by rewrite reverse_cons, <- app_assoc.
Qed.

End GuestbookProperties.

(** A POST ends in one of four ways.  When the body does not decode, the
    reply is status 400 with the text of the decoder's error.  When the
    body decodes but the comment, stamped with the server's clock, does not
    serialize, or when it serializes but the store cannot be reached, the
    reply is status 500 with the text of that error.  In these three cases
    the store is left as it was.  Otherwise the reply is status 201 with no
    header and no body, the serialized comment, with the server's time
    whatever time the client sent, is the new head of the list, and no
    other key of the store changes. *)
Theorem guestbook_post_changes_store_only_when_created
  (json : Guestbook.Json) (requestBody : string) (now : Z)
  (db : Guestbook.Redis) :
  let r := fst (Guestbook.postCommentHandler json requestBody now db) in
  let db' := snd (Guestbook.postCommentHandler json requestBody now db) in
  (exists e,
     Guestbook.json_Decode json requestBody = inr e /\
     r = Guestbook.http_Error (Guestbook.Error e) 400 /\ db' = db)
  \/
  (exists c e,
     Guestbook.json_Decode json requestBody = inl c /\
     Guestbook.json_Marshal json (mkComment (Username c) (Message c) now)
       = inr e /\
     r = Guestbook.http_Error (Guestbook.Error e) 500 /\ db' = db)
  \/
  (exists c text e,
     Guestbook.json_Decode json requestBody = inl c /\
     Guestbook.json_Marshal json (mkComment (Username c) (Message c) now)
       = inl text /\
     Guestbook.failure db = Some e /\
     r = Guestbook.http_Error (Guestbook.Error e) 500 /\ db' = db)
  \/
  (exists c text,
     Guestbook.json_Decode json requestBody = inl c /\
     Guestbook.json_Marshal json (mkComment (Username c) (Message c) now)
       = inl text /\
     Guestbook.failure db = None /\
     r = Guestbook.mkReply 201 [] "" /\
     Guestbook.failure db' = None /\
     Guestbook.stored db' = text :: Guestbook.stored db /\
     forall key, key <> "comments" ->
       Guestbook.lists db' !! key = Guestbook.lists db !! key).
Proof.
  unfold Guestbook.postCommentHandler, Guestbook.LPush.
  destruct (Guestbook.json_Decode json requestBody) as [c|e].
  - destruct (Guestbook.json_Marshal json _) as [text|e] eqn:Em.
    + destruct (Guestbook.failure db) as [e|] eqn:Ef.
      * right. right. left. by exists c, text, e.
      * right. right. right. exists c, text. simpl.
        do 5 (split; [done|]). split.
        -- unfold Guestbook.stored. simpl. by rewrite lookup_insert_eq.
        -- intros key Hkey. by rewrite lookup_insert_ne.
    + right. left. by exists c, e.
  - left. by exists e.
Qed.


(** After any sequence of requests served from an empty store, a GET
    returns the ten newest comments that were accepted, the newest first,
    each with the time the server gave it, provided unmarshalling undoes
    marshalling.  Requests to other paths, undecodable bodies and comments
    that do not serialize leave no trace. *)
Theorem guestbook_get_returns_ten_newest_accepted
  (json : Guestbook.Json) (reqs : list Guestbook.HttpRequest)
  (db : Guestbook.Redis) :
  Guestbook.round_trip json ->
  Guestbook.failure db = None ->
  Guestbook.stored db = [] ->
  Guestbook.getCommentsHandler json (Guestbook.serveAll json reqs db)
  = Guestbook.commentsReply json
      (take 10 (reverse (fst <$> omap (Guestbook.accepted json) reqs))).
Proof.
  intros Hrt Hup Hempty.
  destruct (serveAll_store json reqs db Hup) as [Hup' Hst].
  rewrite Hempty, app_nil_r in Hst.
  unfold Guestbook.getCommentsHandler.
  rewrite LRange_first_ten, Hst by done.
  rewrite <- fmap_reverse, <- fmap_take, <- fmap_reverse, <- fmap_take.
  rewrite decodeComments_round_trip; [done|done|].
  apply Forall_forall. intros [c text] Hin.
  apply elem_of_take in Hin as (i & Hi & _).
  apply list_elem_of_lookup_2, elem_of_reverse, list_elem_of_omap in Hi
    as (req & _ & Hacc).
  by apply (accepted_marshal json req).
Qed.

Lemma sampleJson_round_trip : Guestbook.round_trip Guestbook.sampleJson.
Proof.
  intros [u m t] text. simpl.
  destruct (String.eqb_spec u "anon") as [->|]; [|done].
  destruct (Z.leb_spec 0 t); [|done].
  destruct (Z.ltb_spec t 256); [|done].
  simpl. intros [= <-].
  rewrite nat_ascii_embedding by lia. by rewrite Z2Nat.id.
Qed.

Lemma guestbook_get_returns_ten_newest_accepted_witness :
  Guestbook.getCommentsHandler Guestbook.sampleJson
    (Guestbook.serveAll Guestbook.sampleJson
       [Guestbook.mkHttpRequest "/comment" "first" 65;
        Guestbook.mkHttpRequest "/comments" "" 66;
        Guestbook.mkHttpRequest "/comment" "second" 67;
        Guestbook.mkHttpRequest "/comment" "late" 300;
        Guestbook.mkHttpRequest "/other" "lost" 68]
       Guestbook.emptyRedis)
  = Guestbook.mkReply 200 [("Content-Type", "application/json")]
      "second;first".
Proof.
  rewrite (guestbook_get_returns_ten_newest_accepted Guestbook.sampleJson
             _ Guestbook.emptyRedis sampleJson_round_trip);
    reflexivity.
Defined.
